(** * SLCSP: second lowest cost Silver plan per ZIP code

    A shallow embedding of [src/index.js] and the properties of its
    specification.  The program reads three CSV files through the
    [csv-parser] package, builds two indexes held in JavaScript objects and
    [Set]s, resolves one rate per requested ZIP code and writes the answers
    with [fs.writeFileSync].

    The file is organised as the program is:
    - [JSNumber]: the values of the JavaScript Number type and the built-in
      operations the program calls on them ([parseInt], [parseFloat],
      subtraction, [Number.prototype.toFixed]);
    - [JSSet], [JSArray], [JSObject]: [Set] with its insertion order,
      [Array.prototype.sort], and ordinary objects used as dictionaries,
      with the own property order of [Object.entries] and the members
      inherited from [Object.prototype];
    - the run-time environment: the row streams of the three input files,
      the output file, the console, and how a computation ends;
    - the functions of [index.js], under their own names;
    - the properties, the claims of the specification [C1] to [C10], and
      further properties of the functions [X1] to [X23]. *)

From Stdlib Require Import ZArith Ascii String List Bool Lia.
From stdpp Require Import base decidable option list sorting gmap strings.

Local Open Scope Z_scope.

(** ** JavaScript numbers *)

Module JSNumber.

(** A Number is an IEEE 754 binary64 value.  Every finite binary64 value is
    an integer multiple of the smallest subnormal [2^-1074], so a finite
    value is kept as that integer: [Fin k] stands for [k * 2^-1074].  The
    representation of a value is unique, the order of the values is the
    order of [Z], and [Fin 0] is [+0]. *)
Inductive number : Type :=
  | NaN
  | Inf (neg : bool)
  | NegZero
  | Fin (k : Z).

#[global] Instance number_eq_dec : EqDecision number.
Proof. solve_decision. Defined.

#[global] Instance number_countable : Countable number.
Proof.
  refine (inj_countable'
    (fun x => match x with
              | NaN => inl (inl tt)
              | NegZero => inl (inr tt)
              | Inf neg => inr (inl neg)
              | Fin k => inr (inr k)
              end)
    (fun y => match y with
              | inl (inl _) => NaN
              | inl (inr _) => NegZero
              | inr (inl neg) => Inf neg
              | inr (inr k) => Fin k
              end) _).
  intros []; reflexivity.
Defined.

Definition ulp_exp : Z := 1074.
Definition unit_scale : Z := 2 ^ ulp_exp.
(** [2^1024] in units of [2^-1074]: the first magnitude out of range. *)
Definition overflow_threshold : Z := 2 ^ 2098.

(** Nearest integer to [num / den], ties to even ([0 <= num], [0 < den]). *)
Definition round_nearest_even (num den : Z) : Z :=
  let q := num / den in
  let r := num mod den in
  if 2 * r <? den then q
  else if den <? 2 * r then q + 1
  else if Z.even q then q else q + 1.

(** Round the magnitude [num / den], given in units of [2^-1074], to the
    nearest binary64 magnitude (round to nearest, ties to even).  Below
    [2^53] units the spacing of the binary64 values is one unit; in
    [[2^d, 2^(d+1))] with [53 <= d] it is [2^(d-52)]. *)
Definition round_magnitude (num den : Z) : Z :=
  let sh := Z.max 0 (Z.log2 (num / den) - 52) in
  round_nearest_even num (den * 2 ^ sh) * 2 ^ sh.

(** The Number nearest to [(-1)^neg * num / den] units. *)
Definition round_double (neg : bool) (num den : Z) : number :=
  let r := round_magnitude num den in
  if r =? 0 then (if neg then NegZero else Fin 0)
  else if overflow_threshold <=? r then Inf neg
  else Fin (if neg then - r else r).

(** The integers [k] for which [k * 2^-1074] is a binary64 value: at most
    53 significant bits, below [2^1024]. *)
Definition representable (k : Z) : bool :=
  let a := Z.abs k in
  (a mod 2 ^ Z.max 0 (Z.log2 a - 52) =? 0) && (a <? overflow_threshold).

(** The Number nearest to the real [(-1)^neg * num / den]. *)
Definition of_rational (neg : bool) (num den : Z) : number :=
  round_double neg (num * unit_scale) den.

Definition of_Z (z : Z) : number := of_rational (z <? 0) (Z.abs z) 1.

(** SameValueZero, the equality of [Set]: [NaN] equals itself and the two
    zeros are equal.  [Set.prototype.add] stores [-0] as [+0]. *)
Definition normalize_zero (x : number) : number :=
  match x with NegZero => Fin 0 | _ => x end.

Definition same_value_zero (x y : number) : bool :=
  bool_decide (normalize_zero x = normalize_zero y).

(** [x - y] (Number::subtract). *)
Definition units (x : number) : option Z :=
  match x with Fin k => Some k | NegZero => Some 0 | _ => None end.

Definition sub (x y : number) : number :=
  match x, y with
  | NaN, _ | _, NaN => NaN
  | Inf sx, Inf sy => if Bool.eqb sx sy then NaN else Inf sx
  | Inf sx, _ => Inf sx
  | _, Inf sy => Inf (negb sy)
  | NegZero, Fin 0 => NegZero
  | _, _ =>
      match units x, units y with
      | Some a, Some b =>
          let d := a - b in
          if d =? 0 then Fin 0 else round_double (d <? 0) (Z.abs d) 1
      | _, _ => NaN
      end
  end.

(** The tests [v < 0] and [v > 0] on a Number. *)
Definition is_negative (v : number) : bool :=
  match v with Inf true => true | Fin k => k <? 0 | _ => false end.

Definition is_positive (v : number) : bool :=
  match v with Inf false => true | Fin k => 0 <? k | _ => false end.

(** *** Strings

    A JavaScript string is a sequence of UTF-16 code units.  [string] holds
    the code units below 256, which covers the ASCII and Latin-1 text of the
    CSV fields; [undefined] is [None]. *)

Definition code (c : ascii) : Z := Z.of_N (N_of_ascii c).

(** ToString of a value that is a string or [undefined]. *)
Definition ToString (v : option string) : string :=
  match v with Some s => s | None => "undefined" end.

(** StrWhiteSpaceChar: TAB, LF, VT, FF, CR, SP and NBSP. *)
Definition is_white_space (c : ascii) : bool :=
  let n := code c in
  ((9 <=? n) && (n <=? 13)) || (n =? 32) || (n =? 160).

Fixpoint trim_start (s : string) : string :=
  match s with
  | String c r => if is_white_space c then trim_start r else s
  | EmptyString => s
  end.

Definition digit_value (radix : Z) (c : ascii) : option Z :=
  let n := code c in
  let v := if (48 <=? n) && (n <=? 57) then Some (n - 48)
           else if (97 <=? n) && (n <=? 122) then Some (n - 87)
           else if (65 <=? n) && (n <=? 90) then Some (n - 55)
           else None in
  match v with
  | Some d => if d <? radix then Some d else None
  | None => None
  end.

(** The longest prefix of radix-[radix] digits: its value on top of [acc],
    the number of digits read on top of [count], and the rest. *)
Fixpoint take_digits (radix : Z) (s : string) (acc : Z) (count : Z)
  : Z * Z * string :=
  match s with
  | String c r =>
      match digit_value radix c with
      | Some d => take_digits radix r (acc * radix + d) (count + 1)
      | None => (acc, count, s)
      end
  | EmptyString => (acc, count, s)
  end.

Definition take_sign (s : string) : bool * string :=
  match s with
  | String "-" r => (true, r)
  | String "+" r => (false, r)
  | _ => (false, s)
  end.

(** [parseInt(string)] with the radix left [undefined]: leading white space
    is skipped, a sign is read, the prefix [0x] or [0X] selects radix 16,
    and the longest prefix of digits is the value; no digit gives [NaN].
    The value is rounded to the nearest Number (past 20 significant digits
    ECMAScript lets an engine approximate; the model rounds exactly). *)
Definition parseInt (input : option string) : number :=
  let '(neg, s1) := take_sign (trim_start (ToString input)) in
  let '(radix, s2) :=
    match s1 with
    | String "0" (String "x" r) | String "0" (String "X" r) => (16, r)
    | _ => (10, s1)
    end in
  let '(mathInt, count, _) := take_digits radix s2 0 0 in
  if count =? 0 then NaN
  else if mathInt =? 0 then (if neg then NegZero else Fin 0)
  else of_rational neg mathInt 1.

(** The ExponentPart of a StrDecimalLiteral at the head of [s], when there
    is a complete one: [e] or [E], a sign, at least one digit. *)
Definition take_exponent (s : string) : Z :=
  match s with
  | String "e" r | String "E" r =>
      let '(neg, r') := take_sign r in
      let '(e, count, _) := take_digits 10 r' 0 0 in
      if count =? 0 then 0 else if neg then - e else e
  | _ => 0
  end.

(** [parseFloat(string)]: leading white space is skipped and the longest
    prefix that is a StrDecimalLiteral is the value, rounded to the nearest
    Number (exactly, also past 20 significant digits); no such prefix gives
    [NaN]. *)
Definition parseFloat (input : option string) : number :=
  let '(neg, s1) := take_sign (trim_start (ToString input)) in
  if String.prefix "Infinity" s1 then Inf neg
  else
    let '(int_part, int_count, s2) := take_digits 10 s1 0 0 in
    let '(mantissa, frac_count, s3) :=
      match s2 with
      | String "." r => take_digits 10 r int_part 0
      | _ => (int_part, 0, s2)
      end in
    if int_count + frac_count =? 0 then NaN
    else
      let e := take_exponent s3 - frac_count in
      if mantissa =? 0 then (if neg then NegZero else Fin 0)
      else of_rational neg (mantissa * 10 ^ Z.max e 0) (10 ^ Z.max (- e) 0).

(** *** Number to string *)

Definition digit_char (d : Z) : ascii := ascii_of_N (Z.to_N (48 + d)).

Fixpoint decimal_digits_go (fuel : nat) (n : Z) (acc : string) : string :=
  let acc' := String (digit_char (n mod 10)) acc in
  match fuel with
  | O => acc'
  | S fuel' => if n / 10 =? 0 then acc' else decimal_digits_go fuel' (n / 10) acc'
  end.

(** The decimal digits of [0 <= n], most significant first, without leading
    zeros ([0] is ["0"]).  A number has at most [log2 n + 1] digits. *)
Definition decimal_digits (n : Z) : string :=
  decimal_digits_go (Z.to_nat (Z.log2 n)) n "".

Fixpoint repeat_zero (n : nat) : string :=
  match n with O => "" | S n' => String "0" (repeat_zero n') end.

Fixpoint strip_trailing_zeros (s : string) : string :=
  match s with
  | String c r =>
      match strip_trailing_zeros r with
      | EmptyString => if Ascii.eqb c "0" then "" else String c ""
      | r' => String c r'
      end
  | EmptyString => ""
  end.

(** The multiple of [10 ^ (n - k)] that reads back as the integer Number [v]
    and is nearest to it, if there is one ([n] digits in [v]). *)
Definition shortest_candidate (v n k : Z) : option Z :=
  let p := 10 ^ (n - k) in
  let lo := v / p * p in
  let hi := lo + p in
  let ok c := bool_decide (of_Z c = of_Z v) in
  match ok lo, ok hi with
  | true, true =>
      if v - lo <? hi - v then Some lo
      else if hi - v <? v - lo then Some hi
      else if Z.even (lo / p) then Some lo else Some hi
  | true, false => Some lo
  | false, true => Some hi
  | false, false => None
  end.

Fixpoint shortest_search (fuel : nat) (v n k : Z) : Z :=
  match fuel with
  | O => v
  | S fuel' =>
      match shortest_candidate v n k with
      | Some c => c
      | None => shortest_search fuel' v n (k + 1)
      end
  end.

(** Number::toString of an integer Number [10^21 <= v]: the fewest
    significant digits that read back as [v], in exponent notation. *)
Definition toString_large (v : Z) : string :=
  let n := Z.of_nat (String.length (decimal_digits v)) in
  let c := shortest_search 17 v n 1 in
  let e := Z.of_nat (String.length (decimal_digits c)) - 1 in
  match strip_trailing_zeros (decimal_digits c) with
  | String d EmptyString => String d ("e+" +:+ decimal_digits e)
  | String d r => String d ("." +:+ r +:+ "e+" +:+ decimal_digits e)
  | EmptyString => ""
  end.

(** [x.toFixed(f)] for [0 <= f <= 100] (Number.prototype.toFixed): a
    non-finite [x] and a magnitude from [10^21] on read as ToString does;
    otherwise the nearest multiple of [10^-f], the larger one on a tie, is
    written with [f] digits after the point. *)
Definition toFixed (f : nat) (x : number) : string :=
  match x with
  | NaN => "NaN"
  | Inf false => "Infinity"
  | Inf true => "-Infinity"
  | _ =>
      let k := match x with Fin k => k | _ => 0 end in
      let s := if k <? 0 then "-" else "" in
      let a := Z.abs k in
      if 10 ^ 21 * unit_scale <=? a then s +:+ toString_large (a / unit_scale)
      else
        let n := (2 * a * 10 ^ Z.of_nat f + unit_scale) / (2 * unit_scale) in
        let m := decimal_digits n in
        let m := if (f =? 0)%nat then m
                 else
                   let m' := repeat_zero (S f - String.length m) +:+ m in
                   let k' := (String.length m' - f)%nat in
                   substring 0 k' m' +:+ "." +:+ substring k' f m' in
        s +:+ m
  end.

End JSNumber.

Export JSNumber.

(** ** JavaScript containers *)

(** A [Set] of Numbers: the values in insertion order, without duplicates
    under SameValueZero.  [add] stores [-0] as [+0]; [size] is the length;
    iteration ([Array.from], array destructuring) follows the list. *)
Module JSSet.

Definition add (x : number) (s : list number) : list number :=
  let x' := normalize_zero x in
  if bool_decide (x' ∈ s) then s else s ++ [x'].

Definition size (s : list number) : nat := length s.

End JSSet.

(** [Array.prototype.sort(comparefn)] as V8, the engine of Node.js, runs
    it (TimSort, [third_party/v8/builtins/array-sort.tq]).  The comparator
    is asked through SortCompare, where a result that is [NaN] counts as
    [+0], and every decision is the test [order < 0].  An array of fewer
    than 64 elements is sorted as one run: [count_and_make_run] takes the
    longest start of the array that is ascending, or strictly descending
    and then reversed, and [binary_insert] puts each later element in its
    place among the earlier ones, found by binary search.  An array of 64
    elements or more is cut into runs that V8 merges; the merge is not
    modelled.  Where [comparefn] orders the elements consistently, as
    [(a, b) => a - b] does on the values of a [Set] without [NaN], the
    sorted arrangement is the only one there is. *)
Module JSArray.

Section sort.

Context (comparefn : number → number → number).

(** The rest of the run after [previous]: the elements up to the first
    whose order breaks the direction of the run, and what is left. *)
Fixpoint extend_run (descending : bool) (previous : number) (l : list number)
  : list number * list number :=
  match l with
  | [] => ([], [])
  | current :: l' =>
      if eqb (is_negative (comparefn current previous)) descending then
        let '(run, rest) := extend_run descending current l' in
        (current :: run, rest)
      else ([], l)
  end.

(** CountAndMakeRun: the run at the start of the array, ascending after a
    descending one is reversed, and the elements after it. *)
Definition count_and_make_run (l : list number) : list number * list number :=
  match l with
  | low :: next :: l' =>
      let descending := is_negative (comparefn next low) in
      let '(run, rest) := extend_run descending next l' in
      (if descending then reverse (low :: next :: run) else low :: next :: run,
       rest)
  | _ => (l, [])
  end.

(** The loop [while (left < right)] of BinaryInsertionSort; [steps] bounds its
    iterations, and [right - left] of them are enough
    ([binary_search_steps]). *)
Fixpoint binary_search (steps : nat) (pivot : number) (l : list number)
    (left right : nat) : nat :=
  match steps with
  | O => left
  | S steps =>
      if decide (left < right)%nat then
        let mid := (left + (right - left) / 2)%nat in
        match l !! mid with
        | Some y =>
            if is_negative (comparefn pivot y)
            then binary_search steps pivot l left mid
            else binary_search steps pivot l (S mid) right
        | None => left
        end
      else left
  end.

Definition binary_insert (l : list number) (pivot : number) : list number :=
  let left := binary_search (length l) pivot l 0 (length l) in
  take left l ++ pivot :: drop left l.

Definition sort (l : list number) : list number :=
  let '(run, rest) := count_and_make_run l in
  foldl binary_insert run rest.

End sort.

End JSArray.

(** An ordinary object created by [{}] and used as a dictionary. *)
Module JSObject.

(** The properties every such object inherits from [Object.prototype].
    Each is a function, or for [__proto__] the prototype object itself: a
    truthy value that is not a [Set]. *)
Definition prototype_members : list string :=
  [ "constructor"; "__defineGetter__"; "__defineSetter__"; "hasOwnProperty";
    "__lookupGetter__"; "__lookupSetter__"; "isPrototypeOf";
    "propertyIsEnumerable"; "toString"; "valueOf"; "__proto__";
    "toLocaleString" ]%string.

(** What [o[k]] evaluates to. *)
Inductive property (V : Type) : Type :=
  | Own (v : V)
  | Inherited
  | Undefined.
Arguments Own {V} v.
Arguments Inherited {V}.
Arguments Undefined {V}.

Definition get {V} (o : gmap string V) (k : string) : property V :=
  match o !! k with
  | Some v => Own v
  | None => if bool_decide (k ∈ prototype_members) then Inherited else Undefined
  end.

(** *** Own properties in order

    [Object.entries] lists the own properties whose key is an array index
    first, in ascending numeric order, and then the other string keys in
    the order they were created.  An object that is enumerated is kept as
    the list of its own properties in creation order. *)

Definition is_digit (c : ascii) : bool := (48 <=? code c) && (code c <=? 57).

Fixpoint all_digits (s : string) : bool :=
  match s with
  | String c r => is_digit c && all_digits r
  | EmptyString => true
  end.

(** The array index a key denotes: a canonical decimal numeral (no leading
    zero, no sign) of value at most [2^32 - 2]. *)
Definition array_index (k : string) : option Z :=
  match k with
  | EmptyString => None
  | String c r =>
      if all_digits k && (negb (Ascii.eqb c "0") || String.eqb r "") then
        let '(v, _, _) := take_digits 10 k 0 0 in
        if v <=? 2 ^ 32 - 2 then Some v else None
      else None
  end.

(** [o[k] = v] on own properties: an existing property keeps its place. *)
Fixpoint set_own {V} (k : string) (v : V) (o : list (string * V))
  : list (string * V) :=
  match o with
  | [] => [(k, v)]
  | (k', v') :: o' =>
      if String.eqb k k' then (k, v) :: o' else (k', v') :: set_own k v o'
  end.

(** [o[k] = v] where [v] is a primitive: the key [__proto__] reaches the
    setter of [Object.prototype], which ignores a value that is neither an
    object nor [null]. *)
Definition set_primitive {V} (k : string) (v : V) (o : list (string * V))
  : list (string * V) :=
  if String.eqb k "__proto__" then o else set_own k v o.

Fixpoint insert_index {V} (i : Z) (e : string * V)
    (l : list (Z * (string * V))) : list (Z * (string * V)) :=
  match l with
  | [] => [(i, e)]
  | (j, e') :: l' =>
      if i <? j then (i, e) :: l else (j, e') :: insert_index i e l'
  end.

Fixpoint index_entries {V} (o : list (string * V)) : list (Z * (string * V)) :=
  match o with
  | [] => []
  | (k, v) :: o' =>
      match array_index k with
      | Some i => insert_index i (k, v) (index_entries o')
      | None => index_entries o'
      end
  end.

Definition entries {V} (o : list (string * V)) : list (string * V) :=
  (snd <$> index_entries o)
  ++ filter (λ e, array_index (fst e) = None) o.

End JSObject.

(** ** The run-time environment *)

(** A row object emitted by [csv-parser]: the columns the program reads.
    Every value is a string; a column the file or the row lacks reads as
    [undefined]. *)
Record row : Type := Row {
  zipcode : option string;
  metal_level : option string;
  rate : option string;
  rate_area : option string;
}.

Inductive error : Type :=
  | TypeError (message : string)
  | SystemError (code : string).

(** How the stream [fs.createReadStream(filePath).pipe(csv())] finishes
    after its rows: with [end]; with an [error] event of the parser, which
    [parseCSV] listens to; or with an [error] event of the file stream
    (missing or unreadable file, failed read), which [pipe] does not forward
    and nothing listens to. *)
Inductive stream_end : Type :=
  | End
  | ParserError (e : error)
  | FileError (e : error).

Record source : Type := Source {
  rows : list row;
  ending : stream_end;
}.

(** The files named by [paths]. *)
Record files : Type := Files {
  plans : source;
  zips : source;
  slcp : source;
  output : option string;
  output_writable : bool;
}.

(** What reaches the standard error stream. *)
Inductive report : Type :=
  | ConsoleError (message : string) (e : error)
  | UncaughtException (e : error).

Record world : Type := World {
  fs : files;
  stdout : list string;
  stderr : list report;
}.

(** How a computation ends: with a value; with an exception or a rejected
    promise, which an enclosing [try] over [await] catches; or with an
    exception thrown out of an event listener, which no frame of the
    program is below: the process reports it and exits. *)
Inductive completion (A : Type) : Type :=
  | Normal (a : A)
  | Throw (e : error)
  | Crash (e : error).
Arguments Normal {A} a.
Arguments Throw {A} e.
Arguments Crash {A} e.

Definition io (A : Type) : Type := world → completion A * world.

#[global] Instance io_ret : MRet io := λ A a w, (Normal a, w).

#[global] Instance io_bind : MBind io := λ A B k c w,
  match c w with
  | (Normal a, w') => k a w'
  | (Throw e, w') => (Throw e, w')
  | (Crash e, w') => (Crash e, w')
  end.

(** A computation that leaves the world as it is. *)
Definition lift {A} (c : completion A) : io A := λ w, (c, w).

(** [try { body } catch (error) { handler }]. *)
Definition try_catch {A} (body : io A) (handler : error → io A) : io A :=
  λ w, match body w with
       | (Throw e, w') => handler e w'
       | r => r
       end.

Definition console_log (line : string) : io unit :=
  λ w, (Normal tt, World (fs w) (stdout w ++ [line]) (stderr w)).

Definition console_error (message : string) (e : error) : io unit :=
  λ w, (Normal tt, World (fs w) (stdout w) (stderr w ++ [ConsoleError message e])).

(** [fs.writeFileSync(paths.output, content, 'utf8')]. *)
Definition writeFileSync (content : string) : io unit :=
  λ w, if output_writable (fs w) then
         (Normal tt,
          World (Files (plans (fs w)) (zips (fs w)) (slcp (fs w))
                       (Some content) true) (stdout w) (stderr w))
       else lift (Throw (SystemError "EACCES")) w.

(** The effect of the whole process on the world: an exception nothing
    caught is reported on the standard error stream. *)
Definition run_process (p : io unit) (w : world) : world :=
  match p w with
  | (Normal _, w') => w'
  | (Throw e, w') | (Crash e, w') =>
      World (fs w') (stdout w') (stderr w' ++ [UncaughtException e])
  end.

(** ** The program *)

Definition paths_output : string := "./slcsp/slcsp_complete.csv".

(** The rows reach [processRow] one at a time, from the [data] listener. *)
Fixpoint emit_rows {D} (processRow : row → D → io D) (rs : list row) (data : D)
  : io D :=
  match rs with
  | [] => mret data
  | r :: rs' => data' ← processRow r data; emit_rows processRow rs' data'
  end.

(** [parseCSV(filePath, processRow)], awaited.  [data] starts as [{}]; the
    promise resolves with it on [end] and rejects on an [error] of the
    parser.  An exception of [processRow] leaves a listener, and so does an
    [error] event of the file stream. *)
Definition parseCSV {D} (file : files → source) (empty : D)
    (processRow : row → D → io D) : io D :=
  λ w,
    let src := file (fs w) in
    match emit_rows processRow (rows src) empty w with
    | (Normal data, w') =>
        match ending src with
        | End => (Normal data, w')
        | ParserError e => (Throw e, w')
        | FileError e => (Crash e, w')
        end
    | (Throw e, w') | (Crash e, w') => (Crash e, w')
    end.

(** The property key of a rate area.  The key is [ToString(area)], which
    tells any two Numbers apart but [+0] and [-0]; the model keys the
    object by the Number, with [-0] as [+0].  No such key names a member of
    [Object.prototype]. *)
Definition area_key (area : number) : number := normalize_zero area.

Definition parsePlans_row (r : row) (data : gmap number (list number))
  : gmap number (list number) :=
  if bool_decide (metal_level r = Some "Silver") then
    let area := parseInt (rate_area r) in
    let parsedRate := parseFloat (rate r) in
    let data :=
      match data !! area_key area with
      | None => <[area_key area := []]> data
      | Some _ => data
      end in
    alter (JSSet.add parsedRate) (area_key area) data
  else data.

Definition parsePlans : io (gmap number (list number)) :=
  parseCSV plans ∅ (λ r data, mret (parsePlans_row r data)).

Definition parseZips_row (r : row) (data : gmap string (list number))
  : completion (gmap string (list number)) :=
  let zipcode := ToString (zipcode r) in
  let area := parseInt (rate_area r) in
  match JSObject.get data zipcode with
  | JSObject.Undefined => Normal (<[zipcode := JSSet.add area []]> data)
  | JSObject.Own s => Normal (<[zipcode := JSSet.add area s]> data)
  | JSObject.Inherited => Throw (TypeError "data[zipcode].add is not a function")
  end.

Definition parseZips : io (gmap string (list number)) :=
  parseCSV zips ∅ (λ r data, lift (parseZips_row r data)).

Definition preprocessPlanRates (planData : gmap number (list number))
  : gmap number (list number) :=
  JSArray.sort sub <$> planData.

(** The rate [processSLCSP] computes for a row: [None] is the number [-1]
    the variable starts with, the one value it holds that is not a
    string. *)
Definition resolve_rate (planData : gmap number (list number))
    (zipData : gmap string (list number)) (zipcode : string) : option string :=
  match JSObject.get zipData zipcode with
  | JSObject.Own rateAreas =>
      if bool_decide (JSSet.size rateAreas = 1%nat) then
        match rateAreas with
        | rateArea :: _ =>
            match planData !! area_key rateArea with
            | Some rates =>
                if bool_decide (1 < length rates)%nat then
                  toFixed 2 <$> rates !! 1%nat
                else None
            | None => None
            end
        | [] => None
        end
      else None
  | _ => None
  end.

Definition rate_field (rate : option string) : string :=
  match rate with None => "" | Some r => r end.

Definition processSLCSP_row (planData : gmap number (list number))
    (zipData : gmap string (list number))
    (r : row) (data : list (string * option string))
  : io (list (string * option string)) :=
  let zipcode := ToString (zipcode r) in
  let rate := resolve_rate planData zipData zipcode in
  console_log (zipcode +:+ ", " +:+ rate_field rate);;
  mret (JSObject.set_primitive zipcode rate data).

Definition processSLCSP (planData : gmap number (list number))
    (zipData : gmap string (list number))
  : io (list (string * option string)) :=
  console_log "zipcode, rate";;
  parseCSV slcp [] (processSLCSP_row planData zipData).

Definition join_lines (lines : list string) : string :=
  match lines with
  | [] => ""
  | l :: ls => fold_left (λ acc x, acc +:+ String "010" x) ls l
  end.

Definition csv_content (data : list (string * option string)) : string :=
  let header := "zipcode,rate" in
  let rows := (λ '(zipcode, rate), zipcode +:+ "," +:+ rate_field rate)
                <$> JSObject.entries data in
  join_lines (header :: rows).

Definition writeCSVFile (data : list (string * option string)) : io unit :=
  writeFileSync (csv_content data);;
  console_log ("CSV file has been created at " +:+ paths_output).

Definition main : io unit :=
  try_catch
    (silverPlanData ← parsePlans;
     zipRateAreaData ← parseZips;
     let planData := preprocessPlanRates silverPlanData in
     slcspData ← processSLCSP planData zipRateAreaData;
     writeCSVFile slcspData)
    (λ error, console_error "Error in main process:" error).

Definition run : world → world := run_process main.

(** ** The indexes as functions of the rows *)

Definition plan_index (rs : list row) : gmap number (list number) :=
  foldl (λ data r, parsePlans_row r data) ∅ rs.

(** The rows handed to a listener that only updates [data], until one
    throws. *)
Fixpoint fold_rows {D} (f : row → D → completion D) (rs : list row) (data : D)
  : completion D :=
  match rs with
  | [] => Normal data
  | r :: rs' =>
      match f r data with
      | Normal data' => fold_rows f rs' data'
      | c => c
      end
  end.

Definition zip_index (rs : list row) : completion (gmap string (list number)) :=
  fold_rows parseZips_row rs ∅.

(** What [processSLCSP] stores and logs for the rows of a request. *)
Definition row_zipcode (r : row) : string := ToString (zipcode r).

Definition slcsp_data (planData : gmap number (list number))
    (zipData : gmap string (list number)) (rs : list row)
  : list (string * option string) :=
  foldl (λ data r,
           JSObject.set_primitive (row_zipcode r)
             (resolve_rate planData zipData (row_zipcode r)) data) [] rs.

Definition slcsp_log (planData : gmap number (list number))
    (zipData : gmap string (list number)) (rs : list row) : list string :=
  (λ r, row_zipcode r +:+ ", "
        +:+ rate_field (resolve_rate planData zipData (row_zipcode r))) <$> rs.

(** What a run writes to the output file: it writes when the three streams
    end with [end], no row of the ZIP file throws and the file can be
    written. *)
Definition output_content (f : files) : option string :=
  match ending (plans f), zip_index (rows (zips f)), ending (zips f),
        ending (slcp f), output_writable f with
  | End, Normal zipData, End, End, true =>
      let planData := preprocessPlanRates (plan_index (rows (plans f))) in
      Some (csv_content (slcsp_data planData zipData (rows (slcp f))))
  | _, _, _, _, _ => None
  end.

(** The files a run leaves. *)
Definition files_after (f : files) : files :=
  match output_content f with
  | Some content => Files (plans f) (zips f) (slcp f) (Some content) true
  | None => f
  end.

(** The rate areas the ZIP index holds for a ZIP code: none when the code
    is not a key. *)
Definition zip_areas (zipData : gmap string (list number)) (z : string)
  : list number :=
  default [] (zipData !! z).

(** Rows of the three files, for the examples. *)
Definition plan_row (metal rate area : string) : row :=
  Row None (Some metal) (Some rate) (Some area).
Definition zip_row (zip area : string) : row :=
  Row (Some zip) None None (Some area).
Definition request_row (zip : string) : row :=
  Row (Some zip) None None None.

(** What [parsePlans] reads in a row. *)
Definition is_silver (r : row) : Prop := metal_level r = Some "Silver".
Definition row_area (r : row) : number := area_key (parseInt (rate_area r)).
Definition row_rate (r : row) : number := parseFloat (rate r).

#[global] Instance is_silver_dec r : Decision (is_silver r).
Proof. unfold is_silver. apply _. Defined.

(** ** Order of the Numbers *)

(** [x < y] on Numbers: false when either is [NaN]. *)
Definition number_ltb (x y : number) : bool :=
  match x, y with
  | NaN, _ | _, NaN => false
  | Inf true, Inf true => false
  | Inf true, _ => true
  | _, Inf true => false
  | Inf false, _ => false
  | _, Inf false => true
  | NegZero, NegZero => false
  | NegZero, Fin b => 0 <? b
  | Fin a, NegZero => a <? 0
  | Fin a, Fin b => a <? b
  end.

Definition number_lt (x y : number) : Prop := number_ltb x y = true.
Definition number_le (x y : number) : Prop := number_ltb y x = false.

(** [x] is the second smallest of the values [s]: exactly one value of [s],
    [m], is below it. *)
Definition second_smallest (s : list number) (x : number) : Prop :=
  x ∈ s
  ∧ ∃ m, m ∈ s ∧ number_lt m x
         ∧ ∀ y, y ∈ s → y = m ∨ y = x ∨ number_lt x y.

(** A value [toFixed] writes in fixed notation: finite, of magnitude below
    [10^21]. *)
Definition fixed_range (x : number) : Prop :=
  match x with
  | Fin k => Z.abs k < 10 ^ 21 * unit_scale
  | NegZero => True
  | _ => False
  end.

(** A decimal numeral with exactly two fraction digits: an optional [-],
    at least one digit, a point, two digits. *)
Definition point_two (s : string) : bool :=
  match s with
  | String p (String d1 (String d2 EmptyString)) =>
      Ascii.eqb p "." && JSObject.is_digit d1 && JSObject.is_digit d2
  | _ => false
  end.

Fixpoint digits_point_two (s : string) : bool :=
  match s with
  | String c r => JSObject.is_digit c && (point_two r || digits_point_two r)
  | EmptyString => false
  end.

Definition two_fraction_digits (s : string) : bool :=
  match s with
  | String c r => if Ascii.eqb c "-" then digits_point_two r else digits_point_two s
  | EmptyString => false
  end.

(** ** Example files

    Rate area 7 has the Silver rates 200.00, 150.00, 150.0 and 300, rate
    area 2 has 250.00 alone; ZIP code 64148 lies in area 7 alone, 00601 in
    areas 1 and 4, 10001 in area 2, 40813 in area 3, which has no plan. *)
Definition example_plans : list row :=
  [ plan_row "Silver" "200.00" "7"; plan_row "Silver" "150.00" "7";
    plan_row "Gold" "10.00" "7"; plan_row "Silver" "150.0" "7";
    plan_row "Silver" "300" "7"; plan_row "Silver" "250.00" "2" ].

Definition example_zips : list row :=
  [ zip_row "64148" "7"; zip_row "00601" "1"; zip_row "00601" "4";
    zip_row "10001" "2"; zip_row "40813" "3" ].

Definition example_zipData : gmap string (list number) :=
  match zip_index example_zips with
  | Normal zipData => zipData
  | _ => ∅
  end.

Definition example_world (request : list row) : world :=
  World (Files (Source example_plans End) (Source example_zips End)
               (Source request End) None true) [] [].

(** A request that repeats a ZIP code and is not in ascending order. *)
Definition repeating_request : list row :=
  [ request_row "64148"; request_row "40813"; request_row "64148" ].

(** A rate area whose second smallest rate is not finite. *)
Definition unbounded_plans : list row :=
  [ plan_row "Silver" "100.00" "1"; plan_row "Silver" "Infinity" "1" ].

Definition unbounded_zipData : gmap string (list number) :=
  {[ "10001" := [parseInt (Some "1")] ]}.

(** A rate area with a blank rate field. *)
Definition blank_rate_plans : list row :=
  [ plan_row "Silver" "100.00" "1"; plan_row "Silver" "" "1" ].

(** A ZIP file whose stream fails after its first row. *)
Definition failing_world : world :=
  World (Files (Source example_plans End)
               (Source [zip_row "64148" "7"] (FileError (SystemError "EIO")))
               (Source [request_row "64148"] End) None true) [] [].

(** A plan file with a row whose rate and rate area are not numbers. *)
Definition unparsed_row : row := plan_row "Silver" "n/a" "seven".

Definition unparsed_world : world :=
  World (Files (Source ([plan_row "Silver" "100.00" "7"]
                        ++ unparsed_row :: [plan_row "Silver" "90.00" "7"]) End)
               (Source [] End) (Source [] End) None true) [] [].

(** ** Notions for the further properties *)

(** A row of the ZIP file that [parseZips] can take: its ZIP code does not
    name a member of [Object.prototype]. *)
Definition zip_ok (r : row) : Prop :=
  row_zipcode r ∉ JSObject.prototype_members.

(** The values of a list at their first occurrence, in order. *)
Definition first_occurrences (l : list string) : list string :=
  reverse (remove_dups (reverse l)).

(** The ZIP codes of a request that become property keys. *)
Definition request_keys (rs : list row) : list string :=
  filter (λ k, k ≠ "__proto__") (row_zipcode <$> rs).

(** Two keys that are array indexes, the first below the second. *)
Definition index_lt (k1 k2 : string) : Prop :=
  ∃ i j, JSObject.array_index k1 = Some i ∧ JSObject.array_index k2 = Some j
         ∧ i < j.

(** The value of a string of decimal digits. *)
Fixpoint numeral_value (s : string) : Z :=
  match s with
  | EmptyString => 0
  | String c r => (code c - 48) * 10 ^ Z.of_nat (String.length r) + numeral_value r
  end.

(** A canonical numeral: digits, without a leading zero unless it is [0]. *)
Definition canonical (k : string) : Prop :=
  match k with
  | EmptyString => False
  | String c r => JSObject.all_digits k = true ∧ (c ≠ "0"%char ∨ r = EmptyString)
  end.


Definition failing_request_world : world :=
  World (Files (Source example_plans End) (Source example_zips End)
               (Source [request_row "64148"; request_row "00601"]
                       (FileError (SystemError "EIO")))
               None true) [] [].


(** * Properties *)

(** ** The built-in functions on known values *)

Example parseFloat_ignores_trailing_zeros :
  parseFloat (Some "100.00") = parseFloat (Some "100.0")
  ∧ parseFloat (Some "10.50") = parseFloat (Some "10.500").
Proof. vm_compute. split; reflexivity. Qed.

(** [0.1] is [3602879701896397 * 2^-55]. *)
Example parseFloat_rounds_to_binary64 :
  parseFloat (Some "0.1") = Fin (3602879701896397 * 2 ^ (1074 - 55))
  ∧ parseFloat (Some "9007199254740993") = Fin (9007199254740992 * 2 ^ 1074)
  ∧ parseFloat (Some "5e-324") = Fin 1
  ∧ parseFloat (Some "1.7976931348623159e308") = Inf false.
Proof. vm_compute. repeat split; reflexivity. Qed.

Example parseFloat_reads_a_prefix :
  parseFloat (Some " 12.5 USD") = parseFloat (Some "12.5")
  ∧ parseFloat (Some "1e") = parseFloat (Some "1")
  ∧ parseFloat (Some ".5") = parseFloat (Some "0.5")
  ∧ parseFloat (Some "") = NaN
  ∧ parseFloat (Some "$12.50") = NaN
  ∧ parseFloat None = NaN
  ∧ parseFloat (Some "-0") = NegZero.
Proof. vm_compute. repeat split; reflexivity. Qed.

Example parseInt_reads_a_prefix :
  parseInt (Some "7") = Fin (7 * 2 ^ 1074)
  ∧ parseInt (Some " 7.9") = parseInt (Some "7")
  ∧ parseInt (Some "0x1F") = parseInt (Some "31")
  ∧ parseInt (Some "seven") = NaN
  ∧ parseInt (Some "") = NaN
  ∧ parseInt None = NaN.
Proof. vm_compute. repeat split; reflexivity. Qed.

(** [toFixed] rounds the binary value: [1.005] is below its decimal
    numeral, [0.125] is a tie. *)
Example toFixed_known_values :
  toFixed 2 (parseFloat (Some "200")) = "200.00"
  ∧ toFixed 2 (parseFloat (Some "1.005")) = "1.00"
  ∧ toFixed 2 (parseFloat (Some "0.125")) = "0.13"
  ∧ toFixed 2 (parseFloat (Some "-0.001")) = "-0.00"
  ∧ toFixed 2 (parseFloat (Some "-0")) = "0.00"
  ∧ toFixed 2 (parseFloat (Some "1e21")) = "1e+21"
  ∧ toFixed 2 (parseFloat (Some "1180591620717411303424"))
    = "1.1805916207174113e+21"
  ∧ toFixed 2 NaN = "NaN".
Proof. vm_compute. repeat split; reflexivity. Qed.

(** Array indexes come first, in numeric order; [00601] and [4294967295]
    are not array indexes. *)
Example entries_order :
  (JSObject.entries
     [ ("64148", 1); ("00601", 2); ("40813", 3); ("4294967295", 4);
       ("0", 5); ("4294967294", 6) ]).*1
  = [ "0"; "40813"; "64148"; "4294967294"; "00601"; "4294967295" ].
Proof. vm_compute. reflexivity. Qed.

(** The examples of the specification, in one request: ZIP code 64148 has
    the second lowest rate of area 7, 00601 lies in two areas and 10001 in
    an area with one rate.  The rows of the file follow the keys. *)
Example specification_examples :
  output (fs (run (example_world [ request_row "64148"; request_row "00601";
                                   request_row "10001" ])))
  = Some (join_lines [ "zipcode,rate"; "10001,"; "64148,200.00"; "00601," ]).
Proof. vm_compute. reflexivity. Qed.

(** ** Rounding and the comparator *)

Section rounding.

Lemma round_nearest_even_ge num den : num / den ≤ round_nearest_even num den.
Proof.
  unfold round_nearest_even.
  repeat match goal with |- context [if ?b then _ else _] => destruct b end; lia.
Qed.

Lemma round_magnitude_pos n : 0 < n → 0 < round_magnitude n 1.
Proof.
  intros Hn. unfold round_magnitude. rewrite Z.div_1_r, Z.mul_1_l.
  set (sh := Z.max 0 (Z.log2 n - 52)).
  assert (Hsh : 0 ≤ sh) by lia.
  assert (Hp : 0 < 2 ^ sh) by (apply Z.pow_pos_nonneg; lia).
  assert (Hle : 2 ^ sh ≤ n).
  { destruct (Z.log2_spec n Hn) as [Hlo _].
    transitivity (2 ^ Z.log2 n); [|exact Hlo].
    apply Z.pow_le_mono_r; [lia|]. pose proof (Z.log2_nonneg n). lia. }
  pose proof (round_nearest_even_ge n (2 ^ sh)) as Hge.
  assert (1 ≤ n / 2 ^ sh) by (apply Z.div_le_lower_bound; lia).
  nia.
Qed.

Lemma round_double_sign neg n :
  0 < n →
  is_positive (round_double neg n 1) = negb neg
  ∧ is_negative (round_double neg n 1) = neg.
Proof.
  intros Hn. pose proof (round_magnitude_pos n Hn) as Hr.
  unfold round_double.
  destruct (Z.eqb_spec (round_magnitude n 1) 0) as [?|_]; [lia|].
  destruct (overflow_threshold <=? round_magnitude n 1); destruct neg; simpl;
    split; try reflexivity;
    repeat match goal with
    | |- (?a <? ?b) = true => apply Z.ltb_lt; lia
    | |- (?a <? ?b) = false => apply Z.ltb_ge; lia
    end.
Qed.

Lemma round_nearest_even_close num den :
  0 < den → 2 * Z.abs (round_nearest_even num den * den - num) ≤ den.
Proof.
  intros Hden. unfold round_nearest_even.
  pose proof (Z.div_mod num den ltac:(lia)) as Hdm.
  pose proof (Z.mod_pos_bound num den Hden) as Hmod.
  destruct (Z.ltb_spec (2 * (num mod den)) den);
    [|destruct (Z.ltb_spec den (2 * (num mod den)));
      [|destruct (Z.even (num / den))]]; nia.
Qed.

(** Rounding moves a magnitude by at most half the spacing of the binary64
    values around it. *)
Lemma round_magnitude_close num den :
  0 ≤ num → 0 < den →
  2 * Z.abs (round_magnitude num den * den - num)
  ≤ den * 2 ^ Z.max 0 (Z.log2 (num / den) - 52).
Proof.
  intros Hnum Hden. unfold round_magnitude.
  set (sh := Z.max 0 (Z.log2 (num / den) - 52)).
  assert (Hp : 0 < 2 ^ sh) by (apply Z.pow_pos_nonneg; lia).
  pose proof (round_nearest_even_close num (den * 2 ^ sh) ltac:(nia)) as Hc.
  replace (round_nearest_even num (den * 2 ^ sh) * 2 ^ sh * den)
    with (round_nearest_even num (den * 2 ^ sh) * (den * 2 ^ sh)) by ring.
  exact Hc.
Qed.

(** Rounding yields binary64 values. *)
Lemma round_magnitude_representable num den :
  0 ≤ num → 0 < den →
  let r := round_magnitude num den in
  0 ≤ r ∧ r mod 2 ^ Z.max 0 (Z.log2 r - 52) = 0.
Proof.
  intros Hnum Hden. unfold round_magnitude.
  set (Q := num / den). set (sh := Z.max 0 (Z.log2 Q - 52)).
  assert (HQ : 0 ≤ Q) by (apply Z.div_pos; lia).
  assert (Hsh : 0 ≤ sh) by lia.
  assert (Hp : 0 < 2 ^ sh) by (apply Z.pow_pos_nonneg; lia).
  set (n := round_nearest_even num (den * 2 ^ sh)).
  assert (Hq : num / (den * 2 ^ sh) = Q / 2 ^ sh)
    by (unfold Q; rewrite Z.div_div; lia).
  assert (Hn : Q / 2 ^ sh ≤ n ≤ Q / 2 ^ sh + 1).
  { rewrite <- Hq. unfold n, round_nearest_even.
    repeat match goal with |- context [if ?b then _ else _] => destruct b end;
      lia. }
  assert (Hdiv : 0 ≤ Q / 2 ^ sh) by (apply Z.div_pos; lia).
  assert (Hbound : Q / 2 ^ sh < 2 ^ 53 ∧ (0 < sh → 2 ^ 52 ≤ Q / 2 ^ sh)).
  { destruct (Z.eq_dec Q 0) as [HQ0|HQ0].
    - assert (sh = 0) as Hsh0 by (unfold sh; rewrite HQ0; reflexivity).
      rewrite Hsh0, HQ0. split; [reflexivity|lia].
    - destruct (Z.log2_spec Q ltac:(lia)) as [Hlo Hhi].
      pose proof (Z.log2_nonneg Q).
      destruct (Z.le_gt_cases (Z.log2 Q) 52) as [Hle|Hgt].
      + replace sh with 0 by lia. rewrite Z.pow_0_r, Z.div_1_r.
        split; [|lia]. eapply Z.lt_le_trans; [exact Hhi|].
        apply Z.pow_le_mono_r; lia.
      + assert (Hlog : Z.log2 Q = sh + 52) by lia.
        rewrite Hlog in Hlo.
        replace (Z.succ (Z.log2 Q)) with (53 + sh) in Hhi by lia.
        rewrite Z.pow_add_r in Hlo, Hhi by lia.
        split.
        * apply Z.div_lt_upper_bound; lia.
        * intros _. apply Z.div_le_lower_bound; lia. }
  destruct Hbound as [Hlt Hge].
  split; [nia|].
  destruct (Z.eq_dec n 0) as [Hn0|Hn0]; [rewrite Hn0; simpl; done|].
  assert (0 < n) by lia.
  rewrite Z.log2_mul_pow2 by lia.
  destruct (Z.eq_dec n (2 ^ 53)) as [Hn53|Hn53].
  - rewrite Hn53. rewrite Z.log2_pow2 by lia.
    replace (Z.max 0 (sh + 53 - 52)) with (sh + 1) by lia.
    rewrite <- Z.pow_add_r by lia.
    replace (53 + sh) with (52 + (sh + 1)) by lia.
    rewrite Z.pow_add_r by lia. apply Z.mod_mul. lia.
  - destruct (Z.eq_dec sh 0) as [Hsh0|Hsh0].
    + rewrite Hsh0, Z.pow_0_r, Z.mul_1_r, Z.add_0_l.
      assert (Z.log2 n ≤ 52).
      { apply Z.lt_succ_r. apply Z.log2_lt_pow2; lia. }
      replace (Z.max 0 (Z.log2 n - 52)) with 0 by lia.
      apply Z.mod_1_r.
    + assert (Z.log2 n = 52) as ->.
      { apply Z.log2_unique; [lia|]. split; [lia|]. simpl. lia. }
      replace (Z.max 0 (sh + 52 - 52)) with sh by lia.
      apply Z.mod_mul. lia.
Qed.

Lemma round_double_representable neg num den k :
  0 ≤ num → 0 < den →
  round_double neg num den = Fin k → representable k = true.
Proof.
  intros Hnum Hden. unfold round_double.
  destruct (round_magnitude_representable num den Hnum Hden) as [Hr Hmod].
  set (r := round_magnitude num den) in *.
  destruct (Z.eqb_spec r 0) as [Hr0|Hr0].
  - destruct neg; [done|]. by intros [= <-].
  - destruct (Z.leb_spec overflow_threshold r) as [|Hlt]; [done|].
    intros [= <-]. unfold representable.
    replace (Z.abs (if neg then - r else r)) with r by (destruct neg; lia).
    rewrite Hmod. simpl. by apply Z.ltb_lt.
Qed.

(** What [parseFloat] and [parseInt] return is a binary64 value. *)
Lemma of_rational_representable neg num den k :
  0 ≤ num → 0 < den →
  of_rational neg num den = Fin k → representable k = true.
Proof.
  intros Hnum Hden. apply round_double_representable; [|done].
  apply Z.mul_nonneg_nonneg; [done|]. by apply Z.pow_nonneg.
Qed.

(** The comparator [(a, b) => a - b] is negative exactly when [a < b]. *)
Lemma comparefn_negative x y : is_negative (sub x y) = number_ltb x y.
Proof.
  assert (Hfin : ∀ a b, is_negative
            (if a - b =? 0 then Fin 0
             else round_double (a - b <? 0) (Z.abs (a - b)) 1) = (a <? b)).
  { intros a b. destruct (Z.eqb_spec (a - b) 0) as [Heq|Hne].
    - simpl. symmetry. apply Z.ltb_ge. lia.
    - destruct (round_double_sign (a - b <? 0) (Z.abs (a - b))) as [_ ->];
        [lia|].
      destruct (Z.ltb_spec (a - b) 0), (Z.ltb_spec a b); lia || reflexivity. }
  destruct x as [|sx| |a], y as [|sy| |b];
    try destruct sx; try destruct sy; try reflexivity.
  all: simpl; try exact (Hfin _ _).
  rewrite <- (Hfin 0 b). destruct b; reflexivity.
Qed.

(** The comparator [(a, b) => a - b] is positive exactly when [b < a]. *)
Lemma comparefn_positive x y : is_positive (sub x y) = number_ltb y x.
Proof.
  assert (Hfin : ∀ a b, is_positive
            (if a - b =? 0 then Fin 0
             else round_double (a - b <? 0) (Z.abs (a - b)) 1) = (b <? a)).
  { intros a b. destruct (Z.eqb_spec (a - b) 0) as [Heq|Hne].
    - simpl. symmetry. apply Z.ltb_ge. lia.
    - destruct (round_double_sign (a - b <? 0) (Z.abs (a - b))) as [-> _]; [lia|].
      destruct (Z.ltb_spec (a - b) 0), (Z.ltb_spec b a); simpl; lia || reflexivity. }
  destruct x as [|sx| |a], y as [|sy| |b];
    try destruct sx; try destruct sy; try reflexivity.
  all: simpl; try exact (Hfin _ _).
  rewrite <- (Hfin 0 b). destruct b; reflexivity.
Qed.

End rounding.

(** ** The order of the values that are not [NaN] *)

Section order.

Lemma number_le_trans x y z :
  y ≠ NaN → number_le x y → number_le y z → number_le x z.
Proof.
  unfold number_le. intros Hy.
  destruct x as [|[]| |a], y as [|[]| |b], z as [|[]| |c]; simpl;
    try congruence; rewrite ?Z.ltb_ge, ?Z.ltb_lt; try lia.
Qed.

Lemma number_le_total x y : number_le x y ∨ number_le y x.
Proof.
  unfold number_le.
  destruct x as [|[]| |a], y as [|[]| |b]; simpl; auto;
    rewrite ?Z.ltb_ge; lia.
Qed.

Lemma number_le_neq_lt x y :
  x ≠ NaN → y ≠ NaN → x ≠ NegZero → y ≠ NegZero →
  number_le x y → x ≠ y → number_lt x y.
Proof.
  unfold number_le, number_lt.
  destruct x as [|[]| |a], y as [|[]| |b]; simpl; try congruence;
    rewrite ?Z.ltb_ge, ?Z.ltb_lt; intros; try congruence.
  assert (a ≠ b) by congruence. lia.
Qed.

Lemma number_lt_irrefl x : ¬ number_lt x x.
Proof.
  unfold number_lt. destruct x as [|[]| |a]; simpl; try congruence.
  rewrite Z.ltb_irrefl. congruence.
Qed.

Lemma number_lt_trans x y z : number_lt x y → number_lt y z → number_lt x z.
Proof.
  unfold number_lt.
  destruct x as [|[]| |a], y as [|[]| |b], z as [|[]| |c]; simpl;
    try congruence; rewrite ?Z.ltb_lt; lia.
Qed.

Lemma number_lt_asym x y : number_lt x y → ¬ number_lt y x.
Proof.
  unfold number_lt. destruct x as [|[]| |a], y as [|[]| |b]; simpl; try congruence;
    rewrite ?Z.ltb_lt; lia.
Qed.

Lemma number_lt_le x y : number_lt x y → number_le x y.
Proof.
  intros Hlt. unfold number_le. destruct (number_ltb y x) eqn:Hyx; [|done].
  exfalso. by apply (number_lt_asym x y).
Qed.

Lemma number_lt_le_trans x y z :
  z ≠ NaN → number_lt x y → number_le y z → number_lt x z.
Proof.
  unfold number_lt, number_le.
  destruct x as [|[]| |a], y as [|[]| |b], z as [|[]| |c]; simpl;
    try congruence; rewrite ?Z.ltb_ge, ?Z.ltb_lt; lia.
Qed.

End order.

(** ** [Array.prototype.sort] with [(a, b) => a - b] *)

Section sorting.

Lemma extend_run_app descending previous l run rest :
  JSArray.extend_run sub descending previous l = (run, rest) → l = run ++ rest.
Proof.
  revert previous run rest. induction l as [|x l IH]; intros previous run rest; simpl.
  - by intros [= <- <-].
  - destruct (eqb _ _); [|by intros [= <- <-]].
    destruct (JSArray.extend_run sub descending x l) as [run' rest'] eqn:Hx.
    intros [= <- <-]. simpl. f_equal. by apply (IH x).
Qed.

Lemma count_and_make_run_perm l run rest :
  JSArray.count_and_make_run sub l = (run, rest) → run ++ rest ≡ₚ l.
Proof.
  unfold JSArray.count_and_make_run.
  destruct l as [|low [|next l]]; try (intros [= <- <-]; by rewrite app_nil_r).
  destruct (JSArray.extend_run _ _ _ _) as [run' rest'] eqn:Hrun.
  apply extend_run_app in Hrun as ->.
  intros [= <- <-]. destruct (is_negative _); [|done].
  by rewrite reverse_Permutation.
Qed.

Lemma binary_insert_perm l pivot :
  JSArray.binary_insert sub l pivot ≡ₚ pivot :: l.
Proof.
  unfold JSArray.binary_insert.
  rewrite <- Permutation_middle. by rewrite take_drop.
Qed.

Lemma foldl_binary_insert_perm run rest :
  foldl (JSArray.binary_insert sub) run rest ≡ₚ run ++ rest.
Proof.
  revert run. induction rest as [|x rest IH]; intros run; simpl.
  - by rewrite app_nil_r.
  - rewrite IH, binary_insert_perm. by rewrite <- Permutation_middle.
Qed.

Lemma sort_perm l : JSArray.sort sub l ≡ₚ l.
Proof.
  unfold JSArray.sort.
  destruct (JSArray.count_and_make_run sub l) as [run rest] eqn:Hrun.
  rewrite foldl_binary_insert_perm. by apply count_and_make_run_perm.
Qed.

Lemma sort_length l : length (JSArray.sort sub l) = length l.
Proof. by rewrite sort_perm. Qed.

Lemma sort_elem_of x l : x ∈ JSArray.sort sub l ↔ x ∈ l.
Proof. by rewrite sort_perm. Qed.

Lemma binary_search_steps steps1 steps2 pivot l left right :
  (right - left ≤ steps1)%nat → (right - left ≤ steps2)%nat →
  (right ≤ length l)%nat →
  JSArray.binary_search sub steps1 pivot l left right
  = JSArray.binary_search sub steps2 pivot l left right.
Proof.
  revert steps2 left right.
  induction steps1 as [|steps1 IH]; intros steps2 left right H1 H2 Hlen.
  - destruct steps2 as [|steps2]; [done|]. cbn [JSArray.binary_search].
    by rewrite decide_False by lia.
  - destruct steps2 as [|steps2]; cbn [JSArray.binary_search].
    { by rewrite decide_False by lia. }
    destruct (decide (left < right)%nat) as [Hlt|]; [|done].
    assert ((right - left) / 2 < right - left)%nat by (apply Nat.div_lt; lia).
    destruct (l !! _) as [y|]; [|done].
    destruct (is_negative _); apply IH; lia.
Qed.

Lemma binary_search_bounds steps pivot l left right :
  (left ≤ right)%nat →
  (left ≤ JSArray.binary_search sub steps pivot l left right ≤ right)%nat.
Proof.
  revert left right. induction steps as [|steps IH]; intros left right Hlr;
    cbn [JSArray.binary_search]; [lia|].
  destruct (decide (left < right)%nat) as [Hlt|]; [|lia].
  assert ((right - left) / 2 < right - left)%nat by (apply Nat.div_lt; lia).
  destruct (l !! _) as [y|]; [|lia].
  destruct (is_negative _).
  - specialize (IH left (left + (right - left) / 2)%nat). lia.
  - specialize (IH (S (left + (right - left) / 2)) right). lia.
Qed.

Lemma extend_run_ascending previous l run rest :
  NaN ∉ l →
  JSArray.extend_run sub false previous l = (run, rest) →
  StronglySorted number_le (previous :: run).
Proof.
  revert previous run rest.
  induction l as [|x l IH]; intros previous run rest Hl; simpl.
  - intros [= <- <-]. repeat constructor.
  - rewrite comparefn_negative.
    destruct (number_ltb x previous) eqn:Hlt; simpl;
      [intros [= <- <-]; repeat constructor|].
    destruct (JSArray.extend_run sub false x l) as [run' rest'] eqn:Hx.
    intros [= <- <-].
    assert (Hs : StronglySorted number_le (x :: run')).
    { apply (IH x run' rest'); [|done]. intros ?. apply Hl. by right. }
    constructor; [done|]. constructor; [done|].
    apply StronglySorted_cons in Hs as [Hall _].
    eapply Forall_impl; [exact Hall|]. intros z Hz.
    apply (number_le_trans previous x z); [|done..].
    intros ->. apply Hl. left.
Qed.

Lemma extend_run_descending previous l run rest :
  JSArray.extend_run sub true previous l = (run, rest) →
  StronglySorted (flip number_lt) (previous :: run).
Proof.
  revert previous run rest.
  induction l as [|x l IH]; intros previous run rest; simpl.
  - intros [= <- <-]. repeat constructor.
  - rewrite comparefn_negative.
    destruct (number_ltb x previous) eqn:Hlt; simpl;
      [|intros [= <- <-]; repeat constructor].
    destruct (JSArray.extend_run sub true x l) as [run' rest'] eqn:Hx.
    intros [= <- <-].
    assert (Hs : StronglySorted (flip number_lt) (x :: run'))
      by by apply (IH x run' rest').
    constructor; [done|]. constructor; [done|].
    apply StronglySorted_cons in Hs as [Hall _].
    eapply Forall_impl; [exact Hall|]. intros z Hz.
    by apply (number_lt_trans z x previous).
Qed.

Lemma StronglySorted_reverse {A} (R : relation A) l :
  StronglySorted (flip R) l → StronglySorted R (reverse l).
Proof.
  induction 1 as [|x l Hs IH Hall]; [constructor|].
  rewrite reverse_cons. apply StronglySorted_app_2; [|done|repeat constructor].
  intros y z Hy ->%list_elem_of_singleton.
  rewrite elem_of_reverse in Hy. rewrite Forall_forall in Hall. by apply Hall.
Qed.

Lemma count_and_make_run_sorted l run rest :
  NaN ∉ l →
  JSArray.count_and_make_run sub l = (run, rest) →
  StronglySorted number_le run.
Proof.
  intros Hl. unfold JSArray.count_and_make_run.
  destruct l as [|low [|next l]]; try (intros [= <- <-]; repeat constructor).
  rewrite comparefn_negative.
  destruct (JSArray.extend_run _ _ _ _) as [run' rest'] eqn:Hrun.
  intros [= <- <-]. destruct (number_ltb next low) eqn:Hlt.
  - apply StronglySorted_reverse.
    apply extend_run_descending in Hrun.
    assert (Hs : StronglySorted (flip number_lt) (low :: next :: run')).
    { constructor; [done|]. constructor; [done|].
      apply StronglySorted_cons in Hrun as [Hall _].
      eapply Forall_impl; [exact Hall|]. intros z Hz.
      by apply (number_lt_trans z next low). }
    clear -Hs. induction Hs as [|x l' Hs IH Hall]; constructor; [done|].
    eapply Forall_impl; [exact Hall|]. intros z Hz. by apply number_lt_le.
  - apply extend_run_ascending in Hrun;
      [|intros ?; apply Hl; by do 2 right].
    constructor; [done|]. constructor; [done|].
    apply StronglySorted_cons in Hrun as [Hall _].
    eapply Forall_impl; [exact Hall|]. intros z Hz.
    apply (number_le_trans low next z); [|done..].
    intros ->. apply Hl. right. left.
Qed.

(** The position the binary search finds: the values before it are not
    above the pivot, the values from it on are above. *)
Lemma binary_search_spec steps pivot l left right :
  pivot ≠ NaN → NaN ∉ l → StronglySorted number_le l →
  (right - left ≤ steps)%nat → (left ≤ right ≤ length l)%nat →
  (∀ i y, (i < left)%nat → l !! i = Some y → number_le y pivot) →
  (∀ i y, (right ≤ i)%nat → l !! i = Some y → number_lt pivot y) →
  ∃ p, JSArray.binary_search sub steps pivot l left right = p
  ∧ (p ≤ length l)%nat
  ∧ (∀ i y, (i < p)%nat → l !! i = Some y → number_le y pivot)
  ∧ (∀ i y, (p ≤ i)%nat → l !! i = Some y → number_lt pivot y).
Proof.
  intros Hp Hl Hs. revert left right.
  induction steps as [|steps IH]; intros left right Hsteps Hlr Hlow Hhigh;
    cbn [JSArray.binary_search].
  - assert (left = right) as <- by lia. exists left. auto with lia.
  - destruct (decide (left < right)%nat) as [Hlt|Hge].
    2:{ assert (left = right) as <- by lia. exists left. auto with lia. }
    set (mid := (left + (right - left) / 2)%nat).
    assert (Hmid : (left ≤ mid < right)%nat).
    { unfold mid.
      assert ((right - left) / 2 < right - left)%nat by (apply Nat.div_lt; lia).
      lia. }
    destruct (l !! mid) as [y|] eqn:Hy.
    2:{ apply lookup_ge_None in Hy. lia. }
    assert (Hynan : y ≠ NaN).
    { intros ->. apply Hl. by eapply list_elem_of_lookup_2. }
    rewrite comparefn_negative. destruct (number_ltb pivot y) eqn:Hcmp.
    + apply IH; [lia|lia|exact Hlow|].
      intros i z Hi Hz.
      destruct (decide (i = mid)) as [->|Hne]; [congruence|].
      assert (number_le y z).
      { assert (Hsplit : l = take (S mid) l ++ drop (S mid) l) by by rewrite take_drop.
        rewrite Hsplit in Hs.
        apply (StronglySorted_app_1_elem_of _ _ _ y z) in Hs; [done| |].
        - apply list_elem_of_lookup. exists mid. rewrite lookup_take_lt by lia. done.
        - apply list_elem_of_lookup. exists (i - S mid)%nat.
          rewrite lookup_drop. rewrite <- Hz. f_equal. lia. }
      apply (number_lt_le_trans pivot y z); [|done..].
      intros ->. apply Hl. by eapply list_elem_of_lookup_2.
    + apply IH; [lia|lia| |exact Hhigh].
      intros i z Hi Hz.
      destruct (decide (i = mid)) as [->|Hne]; [by simplify_eq|].
      assert (number_le z y).
      { assert (Hsplit : l = take mid l ++ drop mid l) by by rewrite take_drop.
        rewrite Hsplit in Hs.
        apply (StronglySorted_app_1_elem_of _ _ _ z y) in Hs; [done| |].
        - apply list_elem_of_lookup. exists i. rewrite lookup_take_lt by lia. done.
        - apply list_elem_of_lookup. exists 0%nat.
          rewrite lookup_drop. rewrite <- Hy. f_equal. lia. }
      apply (number_le_trans z y pivot); done.
Qed.

Lemma binary_insert_sorted l pivot :
  pivot ≠ NaN → NaN ∉ l → StronglySorted number_le l →
  StronglySorted number_le (JSArray.binary_insert sub l pivot).
Proof.
  intros Hp Hl Hs. unfold JSArray.binary_insert.
  destruct (binary_search_spec (length l) pivot l 0 (length l))
    as (p & -> & Hlen & Hlow & Hhigh); try done; try lia.
  { intros i y Hi Hy. apply lookup_lt_Some in Hy. lia. }
  rewrite <- (take_drop p l) in Hs.
  apply StronglySorted_app in Hs as (Hcross & Hs1 & Hs2).
  apply StronglySorted_app. split; [|split; [done|]].
  - intros x y Hx [->|Hy]%elem_of_cons.
    + apply list_elem_of_lookup in Hx as [i Hi].
      pose proof (lookup_lt_Some _ _ _ Hi) as Hlt.
      rewrite length_take in Hlt.
      rewrite lookup_take_lt in Hi by lia. apply (Hlow i); [lia|done].
    + by apply Hcross.
  - constructor; [done|]. apply Forall_forall. intros y Hy.
    apply list_elem_of_lookup in Hy as [i Hi]. rewrite lookup_drop in Hi.
    apply number_lt_le. apply (Hhigh (p + i)%nat); [lia|done].
Qed.

Lemma foldl_binary_insert_sorted run rest :
  NaN ∉ run → NaN ∉ rest → StronglySorted number_le run →
  StronglySorted number_le (foldl (JSArray.binary_insert sub) run rest).
Proof.
  revert run. induction rest as [|x rest IH]; intros run Hrun Hrest Hs; simpl.
  - done.
  - apply IH.
    + rewrite binary_insert_perm. intros [?|?]%elem_of_cons; [|done].
      apply Hrest. subst. left.
    + intros ?. apply Hrest. by right.
    + apply binary_insert_sorted; [|done..]. intros ->. apply Hrest. left.
Qed.

Lemma sort_sorted l : NaN ∉ l → StronglySorted number_le (JSArray.sort sub l).
Proof.
  intros Hl. unfold JSArray.sort.
  destruct (JSArray.count_and_make_run sub l) as [run rest] eqn:Hrun.
  pose proof (count_and_make_run_perm _ _ _ Hrun) as Hperm.
  apply foldl_binary_insert_sorted.
  - intros ?. apply Hl. rewrite <- Hperm. apply elem_of_app. by left.
  - intros ?. apply Hl. rewrite <- Hperm. apply elem_of_app. by right.
  - by apply (count_and_make_run_sorted l run rest).
Qed.

(** With [NaN] among the values the comparator is not consistent, and the
    arrangement is the one the steps of the engine give. *)
Example sort_with_NaN :
  JSArray.sort sub [of_Z 3; of_Z 1; NaN; of_Z 2]
  = [of_Z 1; of_Z 2; of_Z 3; NaN]
  ∧ JSArray.sort sub [of_Z 1; NaN; of_Z 3; of_Z 2]
    = [of_Z 1; NaN; of_Z 2; of_Z 3].
Proof. split; vm_compute; reflexivity. Qed.

(** Of a sorted arrangement of distinct values, the element at index 1 is
    the second smallest. *)
Lemma sorted_second_smallest (s l : list number) :
  l ≡ₚ s → NoDup s → NaN ∉ s → NegZero ∉ s → (2 ≤ length s)%nat →
  StronglySorted number_le l →
  ∃ x, l !! 1%nat = Some x ∧ second_smallest s x.
Proof.
  intros Hperm Hnd Hnan Hnz Hlen Hs.
  rewrite <- Hperm in Hnd, Hnan, Hnz, Hlen. unfold second_smallest.
  setoid_rewrite <- Hperm.
  destruct l as [|m [|x rest]]; simpl in Hlen; try lia.
  exists x. split; [done|].
  apply StronglySorted_inv in Hs as [Hs Hm].
  apply StronglySorted_inv in Hs as [_ Hx].
  apply NoDup_cons in Hnd as [Hm_notin Hnd].
  apply NoDup_cons in Hnd as [Hx_notin _].
  assert (Hok : ∀ y, y ∈ m :: x :: rest → y ≠ NaN ∧ y ≠ NegZero).
  { intros y Hy. split; intros ->; [by apply Hnan | by apply Hnz]. }
  destruct (Hok m) as [? ?]; [left|]. destruct (Hok x) as [? ?]; [right; left|].
  split; [right; left|]. exists m. split; [left|]. split.
  - apply number_le_neq_lt; try done.
    + by apply Forall_cons in Hm as [? _].
    + intros ->. apply Hm_notin. left.
  - intros y Hy. apply elem_of_cons in Hy as [->|Hy]; [by left|].
    apply elem_of_cons in Hy as [->|Hy]; [by right; left|].
    right; right. destruct (Hok y) as [? ?]; [by right; right|].
    apply number_le_neq_lt; try done.
    + rewrite Forall_forall in Hx. by apply Hx.
    + intros ->. by apply Hx_notin.
Qed.

(** The second smallest value is unique. *)
Lemma second_smallest_unique s x x' :
  second_smallest s x → second_smallest s x' → x = x'.
Proof.
  intros (Hx & m & Hm & Hmx & Hall) (Hx' & m' & Hm' & Hmx' & Hall').
  assert (Hcontra : ∀ a b c,
            number_lt a b → number_lt b c → number_lt c a → False).
  { intros a b c Hab Hbc Hca. apply (number_lt_asym a c); [|done].
    by apply (number_lt_trans a b c). }
  destruct (Hall x' Hx') as [E1|[E1|L1]]; [|done|].
  - subst x'. exfalso.
    destruct (Hall m' Hm') as [E2|[E2|L2]].
    + subst m'. by apply (number_lt_irrefl m).
    + subst m'. by apply (number_lt_asym m x).
    + by apply (Hcontra m x m').
  - destruct (Hall' x Hx) as [E3|[E3|L3]]; [|done|].
    + subst m'. exfalso.
      destruct (Hall' m Hm) as [E4|[E4|L4]].
      * subst m. by apply (number_lt_irrefl x).
      * subst m. by apply (number_lt_asym x x').
      * by apply (Hcontra x x' m).
    + exfalso. by apply (number_lt_asym x x').
Qed.

End sorting.

(** ** [Set] of Numbers *)

Section sets.

Lemma elem_of_add y x s : y ∈ JSSet.add x s ↔ y ∈ s ∨ y = normalize_zero x.
Proof.
  unfold JSSet.add. case_bool_decide as Hin.
  - split; [by left|]. intros [?| ->]; done.
  - rewrite elem_of_app, list_elem_of_singleton. done.
Qed.

Lemma add_NoDup x s : NoDup s → NoDup (JSSet.add x s).
Proof.
  intros Hnd. unfold JSSet.add. case_bool_decide as Hin; [done|].
  apply NoDup_app. split; [done|]. split; [|apply NoDup_singleton].
  intros y Hy ->%list_elem_of_singleton. done.
Qed.

Lemma normalize_zero_not_NegZero x : normalize_zero x ≠ NegZero.
Proof. by destruct x. Qed.

Lemma add_not_NegZero x s : NegZero ∉ s → NegZero ∉ JSSet.add x s.
Proof.
  intros Hs [?|Heq]%elem_of_add; [done|].
  by apply (normalize_zero_not_NegZero x).
Qed.

(** Adding a value the set holds, under SameValueZero, changes nothing. *)
Lemma add_same_value x y s :
  same_value_zero x y = true → JSSet.add y (JSSet.add x s) = JSSet.add x s.
Proof.
  unfold same_value_zero. intros Heq%bool_decide_eq_true.
  unfold JSSet.add at 1. rewrite bool_decide_eq_true_2; [done|].
  apply elem_of_add. by right.
Qed.

End sets.

(** ** The rate area index *)

Section plan_index.

Implicit Types (data : gmap number (list number)) (r : row).

Lemma parsePlans_row_other r data : ¬ is_silver r → parsePlans_row r data = data.
Proof. intros Hr. unfold parsePlans_row. by rewrite bool_decide_eq_false_2. Qed.

Lemma parsePlans_row_silver r data k :
  is_silver r →
  parsePlans_row r data !! k =
    if decide (k = row_area r)
    then Some (JSSet.add (row_rate r) (default [] (data !! row_area r)))
    else data !! k.
Proof.
  intros Hr. unfold parsePlans_row. rewrite bool_decide_eq_true_2 by done.
  fold (row_area r) (row_rate r).
  destruct (data !! row_area r) as [s|] eqn:Hs; case_decide as Hk; subst; simpl.
  - by rewrite lookup_alter_eq, Hs.
  - by rewrite lookup_alter_ne.
  - by rewrite lookup_alter_eq, lookup_insert_eq.
  - by rewrite lookup_alter_ne, lookup_insert_ne.
Qed.

Lemma plan_index_snoc rs r :
  plan_index (rs ++ [r]) = parsePlans_row r (plan_index rs).
Proof. unfold plan_index. by rewrite foldl_snoc. Qed.

(** Every set of the index holds distinct values, none of them [-0]. *)
Lemma plan_index_sets rs k s :
  plan_index rs !! k = Some s → NoDup s ∧ NegZero ∉ s.
Proof.
  revert k s. induction rs as [|r rs IH] using rev_ind; intros k s.
  - unfold plan_index. simpl. by rewrite lookup_empty.
  - rewrite plan_index_snoc.
    destruct (decide (is_silver r)) as [Hr|Hr].
    + rewrite parsePlans_row_silver by done. case_decide as Hk; [|apply IH].
      intros [= <-].
      destruct (plan_index rs !! row_area r) as [s'|] eqn:Hs'; simpl.
      * destruct (IH _ _ Hs'). split; [by apply add_NoDup|by apply add_not_NegZero].
      * split; [apply add_NoDup, NoDup_nil_2|apply add_not_NegZero, not_elem_of_nil].
    + rewrite parsePlans_row_other by done. apply IH.
Qed.

(** A key of the index comes from a Silver row. *)
Lemma plan_index_key rs k :
  is_Some (plan_index rs !! k) → ∃ r, r ∈ rs ∧ is_silver r ∧ row_area r = k.
Proof.
  induction rs as [|r rs IH] using rev_ind.
  - unfold plan_index. simpl. rewrite lookup_empty. by intros [? ?].
  - rewrite plan_index_snoc. setoid_rewrite elem_of_app.
    destruct (decide (is_silver r)) as [Hr|Hr].
    + rewrite parsePlans_row_silver by done. case_decide as Hk.
      * intros _. exists r. rewrite list_elem_of_singleton. auto.
      * intros (r' & ? & ? & ?)%IH. exists r'. auto.
    + rewrite parsePlans_row_other by done.
      intros (r' & ? & ? & ?)%IH. exists r'. auto.
Qed.

(** The rows that are not Silver do not count. *)
Lemma plan_index_filter rs :
  plan_index rs = plan_index (filter is_silver rs).
Proof.
  induction rs as [|r rs IH] using rev_ind; [done|].
  rewrite filter_app, plan_index_snoc.
  destruct (decide (is_silver r)) as [Hr|Hr].
  - rewrite (filter_cons_True _ _ _ Hr). simpl.
    by rewrite plan_index_snoc, IH.
  - rewrite (filter_cons_False _ _ _ Hr). simpl.
    by rewrite app_nil_r, parsePlans_row_other.
Qed.

(** A value of a set stays in it while more rows arrive. *)
Lemma parsePlans_row_keeps r data k s x :
  data !! k = Some s → x ∈ s →
  ∃ s', parsePlans_row r data !! k = Some s' ∧ x ∈ s'.
Proof.
  intros Hs Hx. destruct (decide (is_silver r)) as [Hr|Hr].
  - rewrite parsePlans_row_silver by done. case_decide as Hk.
    + subst k. rewrite Hs. simpl. eexists. split; [done|].
      apply elem_of_add. by left.
    + eauto.
  - rewrite parsePlans_row_other by done. eauto.
Qed.

Lemma plan_index_keeps rs1 rs2 k s x :
  plan_index rs1 !! k = Some s → x ∈ s →
  ∃ s', plan_index (rs1 ++ rs2) !! k = Some s' ∧ x ∈ s'.
Proof.
  intros Hs Hx. induction rs2 as [|r rs2 IH] using rev_ind.
  - rewrite app_nil_r. eauto.
  - destruct IH as (s' & Hs' & Hx').
    rewrite app_assoc, plan_index_snoc.
    by apply (parsePlans_row_keeps _ _ _ s').
Qed.

Lemma plan_index_app rs1 rs2 :
  plan_index (rs1 ++ rs2)
  = foldl (λ data r, parsePlans_row r data) (plan_index rs1) rs2.
Proof. unfold plan_index. apply foldl_app. Qed.

(** Once a Silver row is read, the set of its rate area holds its rate. *)
Lemma plan_index_holds rs1 r rs2 :
  is_silver r →
  ∃ s, plan_index (rs1 ++ r :: rs2) !! row_area r = Some s
       ∧ normalize_zero (row_rate r) ∈ s.
Proof.
  intros Hr.
  replace (rs1 ++ r :: rs2) with ((rs1 ++ [r]) ++ rs2)
    by by rewrite <- app_assoc.
  eapply plan_index_keeps.
  - rewrite plan_index_snoc, parsePlans_row_silver by done.
    by rewrite decide_True.
  - apply elem_of_add. by right.
Qed.

Lemma preprocessPlanRates_lookup data k :
  preprocessPlanRates data !! k = JSArray.sort sub <$> data !! k.
Proof. unfold preprocessPlanRates. apply lookup_fmap. Qed.

End plan_index.

(** ** The text [toFixed] writes *)

Section formatting.

Import JSObject.

Lemma digit_char_is_digit d : 0 ≤ d < 10 → is_digit (digit_char d) = true.
Proof.
  intros Hd.
  assert (d = 0 ∨ d = 1 ∨ d = 2 ∨ d = 3 ∨ d = 4 ∨ d = 5 ∨ d = 6 ∨ d = 7
          ∨ d = 8 ∨ d = 9) as Hcases by lia.
  repeat destruct Hcases as [->|Hcases]; try subst d; reflexivity.
Qed.

Lemma decimal_digits_go_all fuel n acc :
  all_digits acc = true → all_digits (decimal_digits_go fuel n acc) = true.
Proof.
  revert n acc. induction fuel as [|fuel IH]; intros n acc Hacc; simpl.
  - rewrite digit_char_is_digit by (apply Z.mod_pos_bound; lia). done.
  - assert (all_digits (String (digit_char (n mod 10)) acc) = true) as Hacc'.
    { simpl. rewrite digit_char_is_digit by (apply Z.mod_pos_bound; lia). done. }
    destruct (n / 10 =? 0); [done|]. by apply IH.
Qed.

Lemma decimal_digits_all n : all_digits (decimal_digits n) = true.
Proof. by apply decimal_digits_go_all. Qed.

Lemma digit_value_digit_char d :
  0 ≤ d < 10 → digit_value 10 (digit_char d) = Some d.
Proof.
  intros Hd.
  assert (d = 0 ∨ d = 1 ∨ d = 2 ∨ d = 3 ∨ d = 4 ∨ d = 5 ∨ d = 6 ∨ d = 7
          ∨ d = 8 ∨ d = 9) as Hcases by lia.
  repeat destruct Hcases as [->|Hcases]; try subst d; reflexivity.
Qed.

Lemma decimal_digits_go_value fuel n :
  0 ≤ n < 10 ^ (Z.of_nat fuel + 1) →
  ∃ d, 0 < d ∧ ∀ acc a c,
    take_digits 10 (decimal_digits_go fuel n acc) a c
    = take_digits 10 acc (a * 10 ^ d + n) (c + d).
Proof.
  revert n. induction fuel as [|fuel IH]; intros n Hn.
  - exists 1. split; [lia|]. intros acc a c. cbn [decimal_digits_go take_digits].
    change (10 ^ (Z.of_nat 0 + 1)) with 10 in Hn.
    rewrite Z.mod_small by lia. rewrite digit_value_digit_char by lia.
    by rewrite Z.pow_1_r.
  - cbn [decimal_digits_go].
    pose proof (Z.div_mod n 10 ltac:(lia)) as Hdm.
    pose proof (Z.mod_pos_bound n 10 ltac:(lia)) as Hmod.
    destruct (Z.eqb_spec (n / 10) 0) as [Hq|Hq].
    + exists 1. split; [lia|]. intros acc a c. cbn [take_digits].
      rewrite digit_value_digit_char by lia.
      rewrite Z.pow_1_r. f_equal. lia.
    + destruct (IH (n / 10)) as (d & Hd & Heq).
      { split; [apply Z.div_pos; lia|].
        apply Z.div_lt_upper_bound; [lia|].
        replace (Z.of_nat (S fuel) + 1) with (Z.succ (Z.of_nat fuel + 1)) in Hn
          by lia.
        rewrite Z.pow_succ_r in Hn by lia. lia. }
      exists (d + 1). split; [lia|]. intros acc a c.
      rewrite Heq. cbn [take_digits]. rewrite digit_value_digit_char by lia.
      rewrite Z.pow_add_r, Z.pow_1_r by lia. f_equal; lia.
Qed.

(** The digits [decimal_digits] writes read back as the number. *)
Lemma decimal_digits_value n :
  0 ≤ n →
  ∃ d, 0 < d ∧ take_digits 10 (decimal_digits n) 0 0 = (n, d, EmptyString).
Proof.
  intros Hn. destruct (decimal_digits_go_value (Z.to_nat (Z.log2 n)) n)
    as (d & Hd & Heq).
  - split; [done|]. pose proof (Z.log2_nonneg n). rewrite Z2Nat.id by done.
    destruct (Z.eq_dec n 0) as [->|Hne]; [done|].
    destruct (Z.log2_spec n ltac:(lia)) as [_ Hlt].
    eapply Z.lt_le_trans; [exact Hlt|].
    replace (Z.succ (Z.log2 n)) with (Z.log2 n + 1) by lia.
    apply Z.pow_le_mono_l. lia.
  - exists d. split; [done|]. unfold decimal_digits. by rewrite Heq.
Qed.

Lemma decimal_digits_go_length fuel n acc :
  (String.length acc < String.length (decimal_digits_go fuel n acc))%nat.
Proof.
  revert n acc. induction fuel as [|fuel IH]; intros n acc; simpl; [lia|].
  destruct (n / 10 =? 0); simpl; [lia|].
  specialize (IH (n / 10) (String (digit_char (n mod 10)) acc)). simpl in IH. lia.
Qed.

Lemma decimal_digits_length n : (1 ≤ String.length (decimal_digits n))%nat.
Proof.
  pose proof (decimal_digits_go_length (Z.to_nat (Z.log2 n)) n "") as H.
  simpl in H. unfold decimal_digits. lia.
Qed.

Lemma string_length_append s1 s2 :
  String.length (s1 +:+ s2) = (String.length s1 + String.length s2)%nat.
Proof. induction s1 as [|c s1 IH]; simpl; [done|]. by rewrite IH. Qed.

Lemma all_digits_append s1 s2 :
  all_digits (s1 +:+ s2) = all_digits s1 && all_digits s2.
Proof.
  induction s1 as [|c s1 IH]; simpl; [done|]. by rewrite IH, andb_assoc.
Qed.

Lemma repeat_zero_length n : String.length (repeat_zero n) = n.
Proof. induction n as [|n IH]; simpl; [done|]. by rewrite IH. Qed.

Lemma repeat_zero_all n : all_digits (repeat_zero n) = true.
Proof. induction n as [|n IH]; simpl; done. Qed.

(** Cutting a string of digits two characters before its end. *)
Lemma digits_point_two_substring k s :
  String.length s = S (S (S k)) → all_digits s = true →
  digits_point_two
    (substring 0 (S k) s +:+ "." +:+ substring (S k) 2 s) = true.
Proof.
  revert s. induction k as [|k IH]; intros s Hlen Hdig.
  - destruct s as [|c [|d1 [|d2 [|? ?]]]]; simpl in Hlen; try lia.
    cbn [all_digits] in Hdig.
    apply andb_prop in Hdig as [Hc Hdig]. apply andb_prop in Hdig as [H1 Hdig].
    apply andb_prop in Hdig as [H2 _].
    change (digits_point_two (String c (String "." (String d1 (String d2 ""))))
            = true).
    cbn [digits_point_two point_two].
    rewrite Hc, H1, H2. reflexivity.
  - destruct s as [|c s]; simpl in Hlen; [lia|].
    cbn [all_digits] in Hdig. apply andb_prop in Hdig as [Hc Hdig].
    change (substring 0 (S (S k)) (String c s))
      with (String c (substring 0 (S k) s)).
    change (substring (S (S k)) 2 (String c s)) with (substring (S k) 2 s).
    change (String c (substring 0 (S k) s) +:+ "." +:+ substring (S k) 2 s)
      with (String c (substring 0 (S k) s +:+ "." +:+ substring (S k) 2 s)).
    cbn [digits_point_two]. rewrite Hc, IH by (done || lia).
    by rewrite orb_true_r.
Qed.

Lemma is_digit_not_minus c : is_digit c = true → Ascii.eqb c "-" = false.
Proof.
  intros Hc. destruct (Ascii.eqb_spec c "-") as [->|]; [|done].
  discriminate Hc.
Qed.

(** A finite value below [10^21] is written with two fraction digits. *)
Lemma toFixed_two_fraction_digits x :
  fixed_range x → two_fraction_digits (toFixed 2 x) = true.
Proof.
  intros Hx.
  assert (Hbody : ∀ n,
    digits_point_two
      (let m' := repeat_zero (3 - String.length (decimal_digits n))
                 +:+ decimal_digits n in
       substring 0 (String.length m' - 2) m' +:+ "."
       +:+ substring (String.length m' - 2) 2 m') = true).
  { intros n. cbv zeta.
    set (m' := repeat_zero _ +:+ decimal_digits n).
    assert (3 ≤ String.length m')%nat as Hlen.
    { unfold m'. rewrite string_length_append, repeat_zero_length.
      pose proof (decimal_digits_length n). lia. }
    assert (all_digits m' = true) as Hdig.
    { unfold m'. by rewrite all_digits_append, repeat_zero_all, decimal_digits_all. }
    destruct (String.length m') as [|[|[|k]]] eqn:Hk; try lia.
    replace (S (S (S k)) - 2)%nat with (S k) by lia.
    by apply digits_point_two_substring. }
  assert (Hpos : ∀ s, digits_point_two s = true → two_fraction_digits s = true).
  { intros [|c r]; [done|]. intros H. unfold two_fraction_digits.
    rewrite is_digit_not_minus; [done|].
    simpl in H. by apply andb_prop in H as [? _]. }
  destruct x as [|neg| |k]; try done.
  unfold fixed_range in Hx. unfold toFixed.
  destruct (Z.leb_spec (10 ^ 21 * unit_scale) (Z.abs k)) as [|_]; [lia|].
  change (2 =? 0)%nat with false. cbv iota.
  destruct (k <? 0).
  - change ("-" +:+ ?s) with (String "-" s). apply Hbody.
  - change ("" +:+ ?s) with s. apply Hpos, Hbody.
Qed.

End formatting.

(** ** Reading the streams *)

Section streams.

Lemma emit_rows_lift {D} (f : row → D → completion D) rs data w :
  emit_rows (λ r data, lift (f r data)) rs data w = (fold_rows f rs data, w).
Proof.
  revert data. induction rs as [|r rs IH]; intros data; simpl; [done|].
  unfold mbind, io_bind, lift. destruct (f r data); [apply IH|done..].
Qed.

Lemma emit_rows_mret {D} (f : row → D → D) rs data w :
  emit_rows (λ r data, mret (f r data)) rs data w
  = (Normal (foldl (λ data r, f r data) data rs), w).
Proof.
  revert data. induction rs as [|r rs IH]; intros data; simpl; [done|].
  unfold mbind, io_bind, mret, io_ret. apply IH.
Qed.

Lemma emit_rows_processSLCSP planData zipData rs data w :
  emit_rows (processSLCSP_row planData zipData) rs data w
  = (Normal
       (foldl (λ data r,
                 JSObject.set_primitive (row_zipcode r)
                   (resolve_rate planData zipData (row_zipcode r)) data)
              data rs),
     World (fs w) (stdout w ++ slcsp_log planData zipData rs) (stderr w)).
Proof.
  revert data w. induction rs as [|r rs IH]; intros data w; simpl.
  - rewrite app_nil_r. by destruct w.
  - unfold mbind at 1, io_bind at 1.
    destruct (processSLCSP_row planData zipData r data w) as [c w'] eqn:Hrow.
    unfold processSLCSP_row, mbind, io_bind, console_log, mret, io_ret in Hrow.
    injection Hrow as <- <-. rewrite IH. simpl.
    by rewrite <- app_assoc.
Qed.

Lemma parsePlans_eq w :
  parsePlans w =
    (match ending (plans (fs w)) with
     | End => Normal (plan_index (rows (plans (fs w))))
     | ParserError e => Throw e
     | FileError e => Crash e
     end, w).
Proof.
  unfold parsePlans, parseCSV. rewrite emit_rows_mret.
  fold (plan_index (rows (plans (fs w)))). by destruct (ending _).
Qed.

Lemma parseZips_eq w :
  parseZips w =
    (match zip_index (rows (zips (fs w))) with
     | Normal zipData =>
         match ending (zips (fs w)) with
         | End => Normal zipData
         | ParserError e => Throw e
         | FileError e => Crash e
         end
     | Throw e | Crash e => Crash e
     end, w).
Proof.
  unfold parseZips, parseCSV. rewrite emit_rows_lift.
  fold (zip_index (rows (zips (fs w)))).
  destruct (zip_index _); [by destruct (ending _)|done..].
Qed.

Lemma processSLCSP_eq planData zipData w :
  processSLCSP planData zipData w =
    (match ending (slcp (fs w)) with
     | End => Normal (slcsp_data planData zipData (rows (slcp (fs w))))
     | ParserError e => Throw e
     | FileError e => Crash e
     end,
     World (fs w)
       (stdout w ++ "zipcode, rate"
                  :: slcsp_log planData zipData (rows (slcp (fs w))))
       (stderr w)).
Proof.
  unfold processSLCSP, mbind, io_bind, console_log, parseCSV.
  rewrite emit_rows_processSLCSP. simpl.
  fold (slcsp_data planData zipData (rows (slcp (fs w)))).
  rewrite <- app_assoc. simpl. by destruct (ending _).
Qed.

(** A listener that never throws: the plan rows are all accepted. *)
Lemma fold_rows_parsePlans rs data :
  fold_rows (λ r data, Normal (parsePlans_row r data)) rs data
  = Normal (foldl (λ data r, parsePlans_row r data) data rs).
Proof. revert data. induction rs as [|r rs IH]; intros data; simpl; auto. Qed.

End streams.

(** ** The whole run *)

Section run.

Lemma run_eq w :
  run w =
    match ending (plans (fs w)) with
    | End =>
        match zip_index (rows (zips (fs w))) with
        | Normal zipData =>
            match ending (zips (fs w)) with
            | End =>
                let planData :=
                  preprocessPlanRates (plan_index (rows (plans (fs w)))) in
                let out :=
                  stdout w ++ "zipcode, rate"
                    :: slcsp_log planData zipData (rows (slcp (fs w))) in
                match ending (slcp (fs w)) with
                | End =>
                    if output_writable (fs w) then
                      World (files_after (fs w))
                        (out ++ ["CSV file has been created at " +:+ paths_output])
                        (stderr w)
                    else
                      World (fs w) out
                        (stderr w ++ [ConsoleError "Error in main process:"
                                        (SystemError "EACCES")])
                | ParserError e =>
                    World (fs w) out
                      (stderr w ++ [ConsoleError "Error in main process:" e])
                | FileError e =>
                    World (fs w) out (stderr w ++ [UncaughtException e])
                end
            | ParserError e =>
                World (fs w) (stdout w)
                  (stderr w ++ [ConsoleError "Error in main process:" e])
            | FileError e =>
                World (fs w) (stdout w) (stderr w ++ [UncaughtException e])
            end
        | Throw e | Crash e =>
            World (fs w) (stdout w) (stderr w ++ [UncaughtException e])
        end
    | ParserError e =>
        World (fs w) (stdout w)
          (stderr w ++ [ConsoleError "Error in main process:" e])
    | FileError e =>
        World (fs w) (stdout w) (stderr w ++ [UncaughtException e])
    end.
Proof.
  unfold run, run_process, main, try_catch, mbind, io_bind.
  rewrite parsePlans_eq.
  destruct (ending (plans (fs w))) eqn:Hp; [|done..].
  rewrite parseZips_eq.
  destruct (zip_index (rows (zips (fs w)))) as [zipData|e|e] eqn:Hz; [|done..].
  destruct (ending (zips (fs w))) eqn:Hze; [|done..].
  rewrite processSLCSP_eq. cbv zeta.
  destruct (ending (slcp (fs w))) eqn:Hs; [|done..].
  unfold writeCSVFile, mbind, io_bind, writeFileSync, console_log, lift. simpl.
  unfold files_after, output_content. rewrite Hp, Hz, Hze, Hs.
  destruct (output_writable (fs w)); done.
Qed.

Lemma output_content_inputs f g :
  plans f = plans g → zips f = zips g → slcp f = slcp g →
  output_writable f = output_writable g →
  output_content f = output_content g.
Proof. unfold output_content. by intros -> -> -> ->. Qed.

Lemma run_fs w : fs (run w) = files_after (fs w).
Proof.
  rewrite run_eq. unfold files_after, output_content.
  repeat match goal with
  | |- context [match ending ?s with _ => _ end] => destruct (ending s)
  | |- context [match zip_index ?s with _ => _ end] => destruct (zip_index s)
  | |- context [if output_writable ?f then _ else _] => destruct (output_writable f)
  end; done.
Qed.

Lemma output_content_writable f c :
  output_content f = Some c → output_writable f = true.
Proof.
  unfold output_content.
  repeat match goal with
  | |- context [match ending ?s with _ => _ end] => destruct (ending s)
  | |- context [match zip_index ?s with _ => _ end] => destruct (zip_index s)
  | |- context [if output_writable ?f then _ else _] => destruct (output_writable f)
  end; done.
Qed.

Lemma files_after_idemp f : files_after (files_after f) = files_after f.
Proof.
  unfold files_after at 2.
  destruct (output_content f) as [c|] eqn:Hc.
  - unfold files_after.
    rewrite (output_content_inputs _ f), Hc; try done.
    simpl. symmetry. by apply (output_content_writable f c).
  - unfold files_after. by rewrite Hc.
Qed.

End run.

(** ** Own properties and [Object.entries] *)

Section objects.

Context {V : Type}.
Implicit Types (o : list (string * V)) (k : string) (v : V).

Lemma set_own_keys k v o :
  (JSObject.set_own k v o).*1 = if decide (k ∈ o.*1) then o.*1 else o.*1 ++ [k].
Proof.
  induction o as [|[k0 v0] o IH]; [done|].
  cbn [JSObject.set_own].
  destruct (String.eqb_spec k k0) as [->|Hne]; rewrite !fmap_cons; cbn [fst].
  - destruct (decide (k0 ∈ k0 :: o.*1)) as [|Hin]; [done|].
    exfalso. apply Hin. left.
  - rewrite IH.
    destruct (decide (k ∈ o.*1)) as [Hin|Hin],
             (decide (k ∈ k0 :: o.*1)) as [Hin'|Hin']; try done.
    + exfalso. apply Hin'. by right.
    + exfalso. by apply elem_of_cons in Hin' as [?|?].
Qed.

Lemma set_own_NoDup k v o : NoDup o.*1 → NoDup (JSObject.set_own k v o).*1.
Proof.
  intros Hnd. rewrite set_own_keys. case_decide as Hin; [done|].
  apply NoDup_app. split; [done|]. split; [|apply NoDup_singleton].
  by intros k' Hk' ->%list_elem_of_singleton.
Qed.

Lemma set_own_elem k v o k' v' :
  NoDup o.*1 →
  (k', v') ∈ JSObject.set_own k v o
  ↔ (k' = k ∧ v' = v) ∨ (k' ≠ k ∧ (k', v') ∈ o).
Proof.
  induction o as [|[k0 v0] o IH]; simpl; intros Hnd.
  - rewrite list_elem_of_singleton. split.
    + intros [= -> ->]. by left.
    + intros [[-> ->]|[_ []%not_elem_of_nil]]. done.
  - apply NoDup_cons in Hnd as [Hk0 Hnd].
    destruct (String.eqb_spec k k0) as [->|Hne].
    + rewrite !elem_of_cons. split.
      * intros [[= -> ->]|Hin]; [by left|]. right. split; [|by right].
        intros ->. apply Hk0. apply list_elem_of_fmap. by exists (k0, v').
      * intros [[-> ->]|[Hne [[= ? ?]|Hin]]]; [by left|done|by right].
    + rewrite !elem_of_cons, IH by done. split.
      * intros [[= -> ->]|[[-> ->]|[? ?]]]; [right|left|right]; auto.
      * intros [[-> ->]|[? [[= -> ->]|?]]]; auto.
Qed.

Lemma insert_index_perm i (e : string * V) l :
  JSObject.insert_index i e l ≡ₚ (i, e) :: l.
Proof.
  induction l as [|[j e'] l IH]; simpl; [done|].
  destruct (i <? j); [done|]. rewrite IH. apply perm_swap.
Qed.

Lemma index_entries_perm o :
  (JSObject.index_entries o).*2
  ≡ₚ filter (λ e, ¬ JSObject.array_index e.1 = None) o.
Proof.
  induction o as [|[k v] o IH]; simpl; [done|].
  destruct (JSObject.array_index k) as [i|] eqn:Hk.
  - rewrite insert_index_perm, filter_cons_True by (simpl; by rewrite Hk).
    simpl. by rewrite IH.
  - rewrite filter_cons_False; [done|]. simpl. rewrite Hk. by intros [].
Qed.

(** [Object.entries] lists every own property once. *)
Lemma entries_perm o : JSObject.entries o ≡ₚ o.
Proof.
  unfold JSObject.entries. rewrite index_entries_perm.
  rewrite (comm (++)). apply filter_app_complement.
Qed.

End objects.

(** ** The rows of the output file *)

Section output.

Context (planData : gmap number (list number)).
Context (zipData : gmap string (list number)).

Lemma slcsp_data_snoc rs r :
  slcsp_data planData zipData (rs ++ [r])
  = JSObject.set_primitive (row_zipcode r)
      (resolve_rate planData zipData (row_zipcode r))
      (slcsp_data planData zipData rs).
Proof. unfold slcsp_data. by rewrite foldl_snoc. Qed.

(** The object [processSLCSP] resolves with has one property for each ZIP
    code of the request, whatever the number of its rows, but for
    [__proto__]; its value is the rate of that ZIP code. *)
Lemma slcsp_data_properties rs :
  NoDup (slcsp_data planData zipData rs).*1
  ∧ ∀ k v, (k, v) ∈ slcsp_data planData zipData rs
           ↔ k ∈ row_zipcode <$> rs ∧ k ≠ "__proto__"
             ∧ v = resolve_rate planData zipData k.
Proof.
  induction rs as [|r rs [IHnd IH]] using rev_ind.
  - split; [apply NoDup_nil_2|]. intros k v. split.
    + by intros ?%not_elem_of_nil.
    + by intros [?%not_elem_of_nil _].
  - rewrite slcsp_data_snoc. unfold JSObject.set_primitive.
    destruct (String.eqb_spec (row_zipcode r) "__proto__") as [Hp|Hp].
    + split; [done|]. intros k v. rewrite IH, fmap_app, elem_of_app.
      simpl. rewrite list_elem_of_singleton. split; [tauto|].
      intros ([?| ->] & ? & ?); done.
    + split; [by apply set_own_NoDup|]. intros k v.
      rewrite set_own_elem, IH, fmap_app, elem_of_app by done.
      simpl. rewrite list_elem_of_singleton. split.
      * intros [[-> ->]|[? (? & ? & ?)]]; auto.
      * intros ([?| ->] & ? & ->).
        -- destruct (decide (k = row_zipcode r)) as [->|]; auto.
        -- auto.
Qed.

(** The rows of the file, in the order of [Object.entries]: one for each
    ZIP code of the request. *)
Lemma output_rows rs k v :
  (k, v) ∈ JSObject.entries (slcsp_data planData zipData rs)
  ↔ k ∈ row_zipcode <$> rs ∧ k ≠ "__proto__"
    ∧ v = resolve_rate planData zipData k.
Proof.
  rewrite entries_perm. apply slcsp_data_properties.
Qed.


(** The console has one line for each row of the request, in its order. *)
Lemma slcsp_log_length rs :
  length (slcsp_log planData zipData rs) = length rs.
Proof. unfold slcsp_log. apply length_fmap. Qed.

End output.

(** * The claims of the specification *)

(** ** C1: the rows of the output file *)

(** C1 fails on the code.  For the request 64148, 40813, 64148 the program
    logs three rows in the order of the request, and writes two: the ZIP
    codes are the property keys of one object, so a repeated ZIP code is
    stored once, and [Object.entries] lists the keys that are array indexes
    in ascending numeric order. *)
Theorem C1_output_rows_follow_the_object_keys :
  stdout (run (example_world repeating_request))
  = [ "zipcode, rate"; "64148, 200.00"; "40813, "; "64148, 200.00";
      "CSV file has been created at ./slcsp/slcsp_complete.csv" ]
  ∧ output (fs (run (example_world repeating_request)))
    = Some (join_lines [ "zipcode,rate"; "40813,"; "64148,200.00" ]).
Proof. vm_compute. split; reflexivity. Qed.

(** ** C2: the second lowest rate *)

(** C2, amended: when the request ZIP code maps to exactly one rate area
    and the set of distinct Silver rates of that area has at least 2
    elements, none of them [NaN], the resolved rate is [toFixed(2)] of the
    second smallest rate of the set; that text is a decimal numeral with
    exactly 2 fraction digits when the rate is finite and below [10^21] in
    magnitude. *)
Theorem C2_second_lowest_rate (planRows : list row)
    (zipData : gmap string (list number)) (z : string) (a : number)
    (s : list number) :
  zipData !! z = Some [a] →
  plan_index planRows !! area_key a = Some s →
  (2 ≤ length s)%nat →
  NaN ∉ s →
  ∃ x, second_smallest s x
       ∧ resolve_rate (preprocessPlanRates (plan_index planRows)) zipData z
         = Some (toFixed 2 x)
       ∧ (fixed_range x → two_fraction_digits (toFixed 2 x) = true).
Proof.
  intros Hz Hs Hlen Hnan.
  destruct (plan_index_sets _ _ _ Hs) as [Hnd Hnz].
  destruct (sorted_second_smallest s (JSArray.sort sub s)) as (x & Hx & Hsnd);
    [apply sort_perm|done..|by apply sort_sorted|].
  exists x. split; [done|]. split; [|apply toFixed_two_fraction_digits].
  unfold resolve_rate, JSObject.get. rewrite Hz. simpl.
  rewrite preprocessPlanRates_lookup, Hs. simpl.
  rewrite bool_decide_eq_true_2 by (rewrite sort_length; lia).
  by rewrite Hx.
Qed.

Lemma C2_second_lowest_rate_example :
  ∃ x, second_smallest
         [parseFloat (Some "200.00"); parseFloat (Some "150.00");
          parseFloat (Some "300")] x
       ∧ resolve_rate (preprocessPlanRates (plan_index example_plans))
           example_zipData "64148" = Some (toFixed 2 x)
       ∧ (fixed_range x → two_fraction_digits (toFixed 2 x) = true).
Proof.
  apply (C2_second_lowest_rate example_plans example_zipData "64148"
           (parseInt (Some "7"))).
  - vm_compute. reflexivity.
  - vm_compute. reflexivity.
  - cbn [length]. lia.
  - intros H. apply list_elem_of_In in H. vm_compute in H.
    destruct H as [H|[H|[H|[]]]]; discriminate H.
Defined.

(** C2 as stated fails on rates that are not finite numbers.  With the
    Silver rates 100.00 and Infinity in the one rate area of the ZIP code,
    the set has 2 elements, the second smallest is [Infinity] and the rate
    field reads [Infinity], which no Number formats to with two fraction
    digits.  With the rates 100.00 and a blank field, the set has the 2
    elements 100 and [NaN], none of which is the second smallest, and the
    rate field reads [NaN]. *)
Lemma C2_not_two_fraction_digits :
  (unbounded_zipData !! "10001" = Some [parseInt (Some "1")]
   ∧ plan_index unbounded_plans !! area_key (parseInt (Some "1"))
     = Some [parseFloat (Some "100.00"); Inf false]
   ∧ second_smallest [parseFloat (Some "100.00"); Inf false] (Inf false)
   ∧ resolve_rate (preprocessPlanRates (plan_index unbounded_plans))
       unbounded_zipData "10001" = Some "Infinity"
   ∧ ¬ (∃ x, resolve_rate (preprocessPlanRates (plan_index unbounded_plans))
               unbounded_zipData "10001" = Some (toFixed 2 x)
             ∧ two_fraction_digits (toFixed 2 x) = true))
  ∧ (plan_index blank_rate_plans !! area_key (parseInt (Some "1"))
     = Some [parseFloat (Some "100.00"); NaN]
     ∧ resolve_rate (preprocessPlanRates (plan_index blank_rate_plans))
         unbounded_zipData "10001" = Some "NaN"
     ∧ two_fraction_digits "NaN" = false
     ∧ ¬ (∃ x, second_smallest [parseFloat (Some "100.00"); NaN] x)).
Proof.
  assert (resolve_rate (preprocessPlanRates (plan_index unbounded_plans))
            unbounded_zipData "10001" = Some "Infinity") as Hres
    by (vm_compute; reflexivity).
  split.
  - split; [vm_compute; reflexivity|].
    split; [vm_compute; reflexivity|].
    split; [|split; [exact Hres|]].
    + split; [apply list_elem_of_In; right; left; reflexivity|].
      exists (parseFloat (Some "100.00")).
      split; [apply list_elem_of_In; left; reflexivity|].
      split; [vm_compute; reflexivity|].
      intros y Hy. apply list_elem_of_In in Hy.
      destruct Hy as [<-|[<-|[]]]; auto.
    + intros (x & Hx & Hfmt). rewrite Hres in Hx.
      injection Hx as Hx. rewrite <- Hx in Hfmt. discriminate Hfmt.
  - split; [vm_compute; reflexivity|].
    split; [vm_compute; reflexivity|].
    split; [reflexivity|].
    intros (x & Hx & m & Hm & Hlt & _).
    apply list_elem_of_In in Hx, Hm. unfold number_lt in Hlt.
    destruct Hx as [<-|[<-|[]]], Hm as [<-|[<-|[]]];
      vm_compute in Hlt; discriminate Hlt.
Qed.

(** ** C3: no single rate area *)

(** C3: a request ZIP code for which the ZIP index holds no rate area (the
    code is not a key) or two or more is unresolved, whatever the plan
    data: the rate is the initial [-1], the rate field of its row is empty,
    and that row is the row of the ZIP code in the output of every request
    that has it. *)
Theorem C3_unresolved_without_single_area
    (planData : gmap number (list number))
    (zipData : gmap string (list number)) (z : string) :
  length (zip_areas zipData z) ≠ 1%nat →
  resolve_rate planData zipData z = None
  ∧ z +:+ "," +:+ rate_field (resolve_rate planData zipData z) = z +:+ ","
  ∧ ∀ request, z ∈ row_zipcode <$> request → z ≠ "__proto__" →
      (z, None) ∈ JSObject.entries (slcsp_data planData zipData request).
Proof.
  intros Hlen.
  assert (resolve_rate planData zipData z = None) as Hres.
  { unfold resolve_rate, JSObject.get, zip_areas in *.
    destruct (zipData !! z) as [rateAreas|]; simpl in *.
    - unfold JSSet.size. by rewrite bool_decide_eq_false_2.
    - by case_bool_decide. }
  rewrite Hres. split; [done|]. split; [done|].
  intros request Hz Hproto. by apply output_rows.
Qed.

Lemma C3_unresolved_without_single_area_example :
  (resolve_rate (preprocessPlanRates (plan_index example_plans))
     example_zipData "00601" = None
   ∧ "00601" +:+ ","
     +:+ rate_field (resolve_rate (preprocessPlanRates (plan_index example_plans))
                       example_zipData "00601") = "00601,"
   ∧ ∀ request, "00601" ∈ row_zipcode <$> request → "00601" ≠ "__proto__" →
       ("00601", None)
       ∈ JSObject.entries
           (slcsp_data (preprocessPlanRates (plan_index example_plans))
              example_zipData request))
  ∧ (resolve_rate (preprocessPlanRates (plan_index example_plans))
       example_zipData "99999" = None
     ∧ "99999" +:+ ","
       +:+ rate_field (resolve_rate (preprocessPlanRates (plan_index example_plans))
                         example_zipData "99999") = "99999,"
     ∧ ∀ request, "99999" ∈ row_zipcode <$> request → "99999" ≠ "__proto__" →
         ("99999", None)
         ∈ JSObject.entries
             (slcsp_data (preprocessPlanRates (plan_index example_plans))
                example_zipData request)).
Proof.
  split.
  - apply (C3_unresolved_without_single_area _ example_zipData "00601").
    vm_compute. lia.
  - apply (C3_unresolved_without_single_area _ example_zipData "99999").
    vm_compute. lia.
Defined.

(** ** C4: fewer than two rates *)

(** C4: a request ZIP code that maps to exactly one rate area is unresolved
    when that rate area is not a key of the rate area index or its set of
    distinct Silver rates has fewer than 2 elements: the rate field of its
    row is empty, in the output of every request that has it. *)
Theorem C4_unresolved_without_two_rates
    (silverPlanData : gmap number (list number))
    (zipData : gmap string (list number)) (z : string) (a : number) :
  zipData !! z = Some [a] →
  silverPlanData !! area_key a = None
  ∨ (∃ s, silverPlanData !! area_key a = Some s ∧ (length s < 2)%nat) →
  resolve_rate (preprocessPlanRates silverPlanData) zipData z = None
  ∧ z +:+ "," +:+ rate_field (resolve_rate (preprocessPlanRates silverPlanData)
                                zipData z) = z +:+ ","
  ∧ ∀ request, z ∈ row_zipcode <$> request → z ≠ "__proto__" →
      (z, None)
      ∈ JSObject.entries
          (slcsp_data (preprocessPlanRates silverPlanData) zipData request).
Proof.
  intros Hz Hs.
  assert (resolve_rate (preprocessPlanRates silverPlanData) zipData z = None)
    as Hres.
  { unfold resolve_rate, JSObject.get. rewrite Hz. simpl.
    rewrite preprocessPlanRates_lookup.
    destruct Hs as [->|(s & -> & Hlen)]; simpl; [done|].
    rewrite bool_decide_eq_false_2; [done|]. rewrite sort_length. lia. }
  rewrite Hres. split; [done|]. split; [done|].
  intros request Hin Hproto. by apply output_rows.
Qed.

Lemma C4_unresolved_without_two_rates_example :
  resolve_rate (preprocessPlanRates (plan_index example_plans))
    example_zipData "10001" = None
  ∧ "10001" +:+ ","
    +:+ rate_field (resolve_rate (preprocessPlanRates (plan_index example_plans))
                      example_zipData "10001") = "10001,"
  ∧ ∀ request, "10001" ∈ row_zipcode <$> request → "10001" ≠ "__proto__" →
      ("10001", None)
      ∈ JSObject.entries
          (slcsp_data (preprocessPlanRates (plan_index example_plans))
             example_zipData request).
Proof.
  apply (C4_unresolved_without_two_rates _ example_zipData "10001"
           (parseInt (Some "2"))); [vm_compute; reflexivity|].
  right. exists [parseFloat (Some "250.00")].
  split; [vm_compute; reflexivity|]. cbn [length]. lia.
Defined.

(** ** C5: rates are deduplicated by value *)

(** C5: of two Silver rows of the same rate area whose rate texts parse to
    the same Number, under the SameValueZero equality of [Set], the later
    one changes nothing, wherever the two are in the file: reading it
    leaves the index as the rows before it left it, and the index of the
    file is the index of the file without it.  The set of the area holds
    the value, once, and so does the sorted array the rates are ranked
    in. *)
Theorem C5_rates_deduplicated_by_value (rs1 rs2 rs3 : list row) (r1 r2 : row) :
  is_silver r1 → is_silver r2 →
  row_area r1 = row_area r2 →
  same_value_zero (row_rate r1) (row_rate r2) = true →
  parsePlans_row r2 (plan_index (rs1 ++ r1 :: rs2))
  = plan_index (rs1 ++ r1 :: rs2)
  ∧ plan_index (rs1 ++ r1 :: rs2 ++ r2 :: rs3)
    = plan_index (rs1 ++ r1 :: rs2 ++ rs3)
  ∧ ∃ s rates,
      plan_index (rs1 ++ r1 :: rs2 ++ r2 :: rs3) !! row_area r1 = Some s
      ∧ NoDup s ∧ normalize_zero (row_rate r1) ∈ s
      ∧ preprocessPlanRates (plan_index (rs1 ++ r1 :: rs2 ++ r2 :: rs3))
          !! row_area r1 = Some rates
      ∧ NoDup rates ∧ normalize_zero (row_rate r1) ∈ rates
      ∧ length rates = length s.
Proof.
  intros H1 H2 Harea Hrate.
  assert (Hadd : parsePlans_row r2 (plan_index (rs1 ++ r1 :: rs2))
                 = plan_index (rs1 ++ r1 :: rs2)).
  { destruct (plan_index_holds rs1 r1 rs2 H1) as (s & Hs & Hin).
    apply map_eq. intros k. rewrite (parsePlans_row_silver r2) by done.
    case_decide as Hk; [|done]. subst k. rewrite <- Harea, Hs. simpl.
    f_equal. unfold JSSet.add. rewrite bool_decide_eq_true_2; [done|].
    unfold same_value_zero in Hrate. apply bool_decide_eq_true in Hrate.
    by rewrite <- Hrate. }
  split; [exact Hadd|]. split.
  - replace (rs1 ++ r1 :: rs2 ++ r2 :: rs3)
      with (((rs1 ++ r1 :: rs2) ++ [r2]) ++ rs3) by by rewrite <- !app_assoc.
    replace (rs1 ++ r1 :: rs2 ++ rs3)
      with ((rs1 ++ r1 :: rs2) ++ rs3) by by rewrite <- !app_assoc.
    by rewrite !(plan_index_app _ rs3), plan_index_snoc, Hadd.
  - destruct (plan_index_holds rs1 r1 (rs2 ++ r2 :: rs3) H1) as (s & Hs & Hin).
    destruct (plan_index_sets _ _ _ Hs) as [Hnd _].
    exists s, (JSArray.sort sub s).
    rewrite preprocessPlanRates_lookup, Hs. simpl.
    split; [done|]. split; [done|]. split; [done|]. split; [done|].
    split; [by rewrite sort_perm|]. split; [by apply sort_elem_of|].
    apply sort_length.
Qed.

Lemma C5_rates_deduplicated_by_value_example :
  rate (plan_row "Silver" "100.00" "7") ≠ rate (plan_row "Silver" "100.0" "7")
  ∧ parsePlans_row (plan_row "Silver" "100.0" "7")
      (plan_index [plan_row "Silver" "100.00" "7";
                   plan_row "Silver" "200.00" "7"])
    = plan_index [plan_row "Silver" "100.00" "7";
                  plan_row "Silver" "200.00" "7"]
  ∧ plan_index [plan_row "Silver" "100.00" "7"; plan_row "Silver" "200.00" "7";
                plan_row "Silver" "100.0" "7"]
    = plan_index [plan_row "Silver" "100.00" "7";
                  plan_row "Silver" "200.00" "7"]
  ∧ ∃ s rates,
      plan_index [plan_row "Silver" "100.00" "7";
                  plan_row "Silver" "200.00" "7";
                  plan_row "Silver" "100.0" "7"]
        !! row_area (plan_row "Silver" "100.00" "7") = Some s
      ∧ NoDup s
      ∧ normalize_zero (row_rate (plan_row "Silver" "100.00" "7")) ∈ s
      ∧ preprocessPlanRates
          (plan_index [plan_row "Silver" "100.00" "7";
                       plan_row "Silver" "200.00" "7";
                       plan_row "Silver" "100.0" "7"])
          !! row_area (plan_row "Silver" "100.00" "7") = Some rates
      ∧ NoDup rates
      ∧ normalize_zero (row_rate (plan_row "Silver" "100.00" "7")) ∈ rates
      ∧ length rates = length s.
Proof.
  split; [discriminate|].
  apply (C5_rates_deduplicated_by_value
           [] [plan_row "Silver" "200.00" "7"] []
           (plan_row "Silver" "100.00" "7") (plan_row "Silver" "100.0" "7"));
    vm_compute; reflexivity.
Defined.

(** ** C6: only Silver rows *)

(** C6: every key of the rate area index is the rate area of a row whose
    metal level is exactly ["Silver"]; a row of any other metal level
    leaves the index as it is, and the index of a file is the index of its
    Silver rows. *)
Theorem C6_only_silver_rows_count (rs : list row) :
  (∀ k, is_Some (plan_index rs !! k) →
        ∃ r, r ∈ rs ∧ metal_level r = Some "Silver" ∧ row_area r = k)
  ∧ (∀ r data, metal_level r ≠ Some "Silver" → parsePlans_row r data = data)
  ∧ plan_index rs = plan_index (filter is_silver rs).
Proof.
  split; [apply plan_index_key|].
  split; [intros r data; apply parsePlans_row_other|apply plan_index_filter].
Qed.

Lemma C6_only_silver_rows_count_example :
  parsePlans_row (plan_row "silver" "10.00" "7") (plan_index example_plans)
  = plan_index example_plans
  ∧ parsePlans_row (plan_row "Gold" "10.00" "9") (plan_index example_plans)
    = plan_index example_plans
  ∧ ∃ r, r ∈ example_plans ∧ metal_level r = Some "Silver"
         ∧ row_area r = parseInt (Some "2").
Proof.
  destruct (C6_only_silver_rows_count example_plans) as (Hkey & Hother & _).
  split; [apply Hother; discriminate|].
  split; [apply Hother; discriminate|].
  apply Hkey. vm_compute. eauto.
Defined.

(** ** C7: a failed read *)

(** C7: when the stream of one of the three input files does not end with
    [end] (the file is missing or unreadable, or the stream fails after
    some rows), the run leaves every file as it was, so no output is
    written, and reports one error on the standard error stream: through
    [console.error] for a rejected promise, as an uncaught exception for an
    [error] event of the file stream. *)
Theorem C7_failed_read_writes_nothing (w : world) :
  ending (plans (fs w)) ≠ End
  ∨ ending (zips (fs w)) ≠ End
  ∨ ending (slcp (fs w)) ≠ End →
  fs (run w) = fs w
  ∧ ∃ e, stderr (run w)
           = stderr w ++ [ConsoleError "Error in main process:" e]
         ∨ stderr (run w) = stderr w ++ [UncaughtException e].
Proof.
  intros Hfail. split.
  - rewrite run_fs. unfold files_after, output_content.
    destruct (ending (plans (fs w))); [|done..].
    destruct (zip_index (rows (zips (fs w)))); [|done..].
    destruct (ending (zips (fs w))); [|done..].
    destruct (ending (slcp (fs w))); [|done..].
    by destruct Hfail as [?|[?|?]].
  - rewrite run_eq.
    destruct (ending (plans (fs w))); [|eauto..].
    destruct (zip_index (rows (zips (fs w)))); [|eauto..].
    destruct (ending (zips (fs w))); [|eauto..].
    destruct (ending (slcp (fs w))); [|cbv zeta; eauto..].
    by destruct Hfail as [?|[?|?]].
Qed.

Lemma C7_failed_read_writes_nothing_example :
  fs (run failing_world) = fs failing_world
  ∧ ∃ e, stderr (run failing_world)
           = stderr failing_world ++ [ConsoleError "Error in main process:" e]
         ∨ stderr (run failing_world)
           = stderr failing_world ++ [UncaughtException e].
Proof.
  apply C7_failed_read_writes_nothing. right; left. discriminate.
Defined.

(** ** C8: a field that is not a number *)

(** C8: a Silver row is taken without validation.  The plan rows are all
    accepted and the promise resolves.  When the rate of the row parses to
    [NaN], the set of its rate area holds [NaN], and so does the sorted
    sequence of that area; when its rate area parses to [NaN], [NaN] is a
    key of the index and the rate of the row is in its set. *)
Theorem C8_nan_is_indexed (w : world) (rs1 rs2 : list row) (r : row) :
  rows (plans (fs w)) = rs1 ++ r :: rs2 →
  ending (plans (fs w)) = End →
  is_silver r →
  parsePlans w = (Normal (plan_index (rs1 ++ r :: rs2)), w)
  ∧ (parseFloat (rate r) = NaN →
     ∃ s sorted,
       plan_index (rs1 ++ r :: rs2) !! area_key (parseInt (rate_area r))
       = Some s
       ∧ NaN ∈ s
       ∧ preprocessPlanRates (plan_index (rs1 ++ r :: rs2))
           !! area_key (parseInt (rate_area r)) = Some sorted
       ∧ NaN ∈ sorted)
  ∧ (parseInt (rate_area r) = NaN →
     ∃ s, plan_index (rs1 ++ r :: rs2) !! NaN = Some s
          ∧ normalize_zero (parseFloat (rate r)) ∈ s).
Proof.
  intros Hrows Hend Hr.
  assert (∃ s, plan_index (rs1 ++ r :: rs2) !! row_area r = Some s
               ∧ normalize_zero (row_rate r) ∈ s) as (s & Hs & Hin).
  { destruct (plan_index_keeps (rs1 ++ [r]) rs2 (row_area r)
                (JSSet.add (row_rate r)
                   (default [] (plan_index rs1 !! row_area r)))
                (normalize_zero (row_rate r)))
      as (s & Hs & Hin).
    - rewrite plan_index_snoc, parsePlans_row_silver by done.
      by rewrite decide_True.
    - apply elem_of_add. by right.
    - rewrite <- app_assoc in Hs. eauto. }
  split; [by rewrite parsePlans_eq, Hend, Hrows|]. split.
  - intros Hnan. unfold row_rate in Hin. rewrite Hnan in Hin.
    exists s, (JSArray.sort sub s). fold (row_area r).
    split; [done|]. split; [done|].
    split; [by rewrite preprocessPlanRates_lookup, Hs|].
    by apply sort_elem_of.
  - intros Hnan. unfold row_area in Hs. rewrite Hnan in Hs. eauto.
Qed.

Lemma C8_nan_is_indexed_example :
  parseFloat (rate unparsed_row) = NaN
  ∧ parseInt (rate_area unparsed_row) = NaN
  ∧ parsePlans unparsed_world
    = (Normal (plan_index (rows (plans (fs unparsed_world)))), unparsed_world)
  ∧ ∃ s sorted,
      plan_index (rows (plans (fs unparsed_world))) !! NaN = Some s
      ∧ NaN ∈ s
      ∧ preprocessPlanRates (plan_index (rows (plans (fs unparsed_world))))
          !! NaN = Some sorted
      ∧ NaN ∈ sorted.
Proof.
  split; [vm_compute; reflexivity|]. split; [vm_compute; reflexivity|].
  destruct (C8_nan_is_indexed unparsed_world
              [plan_row "Silver" "100.00" "7"] [plan_row "Silver" "90.00" "7"]
              unparsed_row) as (Hrun & Hrate & _);
    [vm_compute; reflexivity..|].
  split; [exact Hrun|]. apply Hrate. vm_compute. reflexivity.
Defined.

(** ** C9: running again *)

(** C9: a second run on the files the first run left, whose inputs are
    unchanged, leaves the same files: the output file holds the same
    bytes. *)
Theorem C9_rerun_leaves_same_output (w : world) :
  fs (run (run w)) = fs (run w)
  ∧ output (fs (run (run w))) = output (fs (run w)).
Proof.
  assert (fs (run (run w)) = fs (run w)) as ->; [|done].
  by rewrite !run_fs, files_after_idemp.
Qed.

(** Two runs on the same input files write the same output, whatever else
    the worlds hold. *)
Lemma run_output_deterministic w1 w2 :
  plans (fs w1) = plans (fs w2) → zips (fs w1) = zips (fs w2) →
  slcp (fs w1) = slcp (fs w2) →
  output_writable (fs w1) = output_writable (fs w2) →
  output_content (fs w1) = output_content (fs w2).
Proof. apply output_content_inputs. Qed.

(** ** C10: an empty request *)

(** C10: when the request file has no data row and the run reaches the
    writer, the output file is the header line [zipcode,rate] alone,
    without a line feed after it. *)
Theorem C10_empty_request_header_only (w : world)
    (zipData : gmap string (list number)) :
  ending (plans (fs w)) = End →
  zip_index (rows (zips (fs w))) = Normal zipData →
  ending (zips (fs w)) = End →
  slcp (fs w) = Source [] End →
  output_writable (fs w) = true →
  output (fs (run w)) = Some "zipcode,rate".
Proof.
  intros Hp Hz Hze Hs Hw.
  rewrite run_fs. unfold files_after, output_content.
  by rewrite Hp, Hz, Hze, Hs, Hw.
Qed.

Lemma C10_empty_request_header_only_example :
  output (fs (run (example_world []))) = Some "zipcode,rate".
Proof.
  apply (C10_empty_request_header_only _ example_zipData);
    vm_compute; reflexivity.
Defined.

(** * Further properties of the program *)

Lemma fold_rows_snoc {D} (f : row → D → completion D) rs r data :
  fold_rows f (rs ++ [r]) data
  = match fold_rows f rs data with
    | Normal data' => f r data'
    | c => c
    end.
Proof.
  revert data. induction rs as [|r' rs IH]; intros data; simpl.
  - by destruct (f r data).
  - destruct (f r' data); [apply IH|done..].
Qed.

Section zip_index.

Implicit Types (data : gmap string (list number)) (r : row).

Lemma zip_index_snoc rs r :
  zip_index (rs ++ [r])
  = match zip_index rs with
    | Normal data => parseZips_row r data
    | c => c
    end.
Proof. apply fold_rows_snoc. Qed.

Lemma parseZips_row_normal r data data' :
  parseZips_row r data = Normal data' →
  data' = <[row_zipcode r :=
              JSSet.add (parseInt (rate_area r))
                (default [] (data !! row_zipcode r))]> data
  ∧ (data !! row_zipcode r = None → zip_ok r).
Proof.
  unfold parseZips_row, JSObject.get, zip_ok. fold (row_zipcode r).
  destruct (data !! row_zipcode r) as [s|]; simpl.
  - by intros [= <-].
  - case_bool_decide; [done|]. by intros [= <-].
Qed.

Lemma parseZips_row_throw r data e :
  parseZips_row r data = Throw e →
  e = TypeError "data[zipcode].add is not a function"
  ∧ data !! row_zipcode r = None ∧ ¬ zip_ok r.
Proof.
  unfold parseZips_row, JSObject.get, zip_ok. fold (row_zipcode r).
  destruct (data !! row_zipcode r) as [s|]; simpl; [done|].
  case_bool_decide; [|done]. intros [= <-]. auto.
Qed.

Lemma parseZips_row_no_crash r data e : ¬ (parseZips_row r data = Crash e).
Proof.
  unfold parseZips_row. by destruct (JSObject.get data (ToString (zipcode r))).
Qed.

Lemma zip_index_inv rs :
  match zip_index rs with
  | Normal data =>
      Forall zip_ok rs
      ∧ ∀ z s, data !! z = Some s →
          NoDup s ∧ (NegZero ∉ s)
          ∧ ∀ a, a ∈ s ↔ ∃ r, r ∈ rs ∧ row_zipcode r = z
                               ∧ area_key (parseInt (rate_area r)) = a
  | Throw e =>
      e = TypeError "data[zipcode].add is not a function" ∧ ¬ Forall zip_ok rs
  | Crash _ => False
  end
  ∧ (∀ data z, zip_index rs = Normal data →
       (is_Some (data !! z) ↔ ∃ r, r ∈ rs ∧ row_zipcode r = z)).
Proof.
  induction rs as [|r rs [IH IHkey]] using rev_ind.
  - split.
    + split; [constructor|]. intros z s. by rewrite lookup_empty.
    + intros data z [= <-]. rewrite lookup_empty. split.
      * by intros [? ?].
      * by intros (? & ?%not_elem_of_nil & _).
  - rewrite zip_index_snoc. destruct (zip_index rs) as [data|e|e]; [|split..].
    + destruct IH as [Hok Hsets]. specialize (IHkey data).
      destruct (parseZips_row r data) as [data'|e|e] eqn:Hrow.
      * apply parseZips_row_normal in Hrow as [-> Hnew].
        assert (zip_ok r) as Hr.
        { destruct (data !! row_zipcode r) as [s|] eqn:Hs; [|by apply Hnew].
          destruct (proj1 (IHkey (row_zipcode r) eq_refl)) as (r' & Hr' & Heq);
            [by rewrite Hs|].
          rewrite Forall_forall in Hok. unfold zip_ok. rewrite <- Heq.
          by apply Hok. }
        split; [split|].
        -- apply Forall_app. split; [done|]. by constructor.
        -- intros z s. setoid_rewrite elem_of_app.
           setoid_rewrite list_elem_of_singleton.
           destruct (decide (z = row_zipcode r)) as [->|Hne].
           ++ rewrite lookup_insert_eq. intros [= <-].
              destruct (data !! row_zipcode r) as [s|] eqn:Hs; simpl.
              ** destruct (Hsets _ _ Hs) as (Hnd & Hnz & Hmem).
                 split; [by apply add_NoDup|].
                 split; [by apply add_not_NegZero|].
                 intros a. rewrite elem_of_add, Hmem. split.
                 --- intros [(r' & ? & ? & ?)| ->]; [exists r'|exists r]; auto.
                 --- intros (r' & [?| ->] & ? & <-); [left; exists r'|right];
                       auto.
              ** split; [apply add_NoDup, NoDup_nil_2|].
                 split; [apply add_not_NegZero, not_elem_of_nil|].
                 intros a. rewrite elem_of_add. split.
                 --- intros [?%not_elem_of_nil| ->]; [done|]. exists r. auto.
                 --- intros (r' & [Hin| ->] & Hz & <-); [|by right].
                     exfalso.
                     assert (is_Some (data !! row_zipcode r)) as [? Hsome]
                       by (apply IHkey; eauto).
                     congruence.
           ++ rewrite lookup_insert_ne by done. intros Hs.
              destruct (Hsets _ _ Hs) as (Hnd & Hnz & Hmem).
              split; [done|]. split; [done|]. intros a. rewrite Hmem. split.
              ** intros (r' & ? & ? & ?). exists r'. auto.
              ** intros (r' & [?| ->] & ? & ?); [exists r'; auto|done].
        -- intros data' z [= <-]. setoid_rewrite elem_of_app.
           setoid_rewrite list_elem_of_singleton.
           destruct (decide (z = row_zipcode r)) as [->|Hne].
           ++ rewrite lookup_insert_eq. split; [|eauto]. intros _. exists r. auto.
           ++ rewrite lookup_insert_ne, IHkey by done. split.
              ** intros (r' & ? & ?). exists r'. auto.
              ** intros (r' & [?| ->] & ?); [exists r'; auto|done].
      * apply parseZips_row_throw in Hrow as (-> & _ & Hbad).
        split; [split; [done|]|done].
        intros [_ Hr]%Forall_app. apply Hbad. by inversion Hr.
      * by apply parseZips_row_no_crash in Hrow.
    + destruct IH as [-> Hbad]. split; [done|].
      intros [? _]%Forall_app. done.
    + done.
    + done.
    + done.
Qed.

End zip_index.

Lemma zip_index_members (rs : list row) (zipData : gmap string (list number))
    (z : string) :
  zip_index rs = Normal zipData →
  (zipData !! z = None ↔ ¬ ∃ r, r ∈ rs ∧ row_zipcode r = z)
  ∧ ∀ s, zipData !! z = Some s →
      NoDup s
      ∧ ∀ a, a ∈ s ↔ ∃ r, r ∈ rs ∧ row_zipcode r = z
                          ∧ area_key (parseInt (rate_area r)) = a.
Proof.
  intros Hidx. destruct (zip_index_inv rs) as [Hinv Hkey].
  rewrite Hidx in Hinv. destruct Hinv as [_ Hsets]. split.
  - rewrite <- (Hkey zipData z Hidx), eq_None_not_Some. done.
  - intros s Hs. destruct (Hsets z s Hs) as (? & _ & ?). done.
Qed.

(** X1: when no row of the ZIP file throws, the index [parseZips] builds has
    a key exactly for the ZIP codes of the rows, and the set of a ZIP code
    holds exactly the parsed rate areas of its rows, each once. *)
Theorem X1_zip_index_exact (rs : list row)
    (zipData : gmap string (list number)) (z : string) :
  zip_index rs = Normal zipData →
  (zipData !! z = None ↔ ¬ ∃ r, r ∈ rs ∧ row_zipcode r = z)
  ∧ ∀ s, zipData !! z = Some s →
      NoDup s
      ∧ ∀ a, a ∈ s ↔ ∃ r, r ∈ rs ∧ row_zipcode r = z
                          ∧ area_key (parseInt (rate_area r)) = a.
Proof. apply zip_index_members. Qed.

Lemma X1_zip_index_exact_example :
  (example_zipData !! "00601" = None
   ↔ ¬ ∃ r, r ∈ example_zips ∧ row_zipcode r = "00601")
  ∧ ∀ s, example_zipData !! "00601" = Some s →
      NoDup s
      ∧ ∀ a, a ∈ s ↔ ∃ r, r ∈ example_zips ∧ row_zipcode r = "00601"
                          ∧ area_key (parseInt (rate_area r)) = a.
Proof.
  apply (X1_zip_index_exact example_zips example_zipData "00601").
  vm_compute. reflexivity.
Defined.

(** X2: [parseZips] takes every row when no ZIP code names a member of
    [Object.prototype]; otherwise the listener throws the TypeError of
    calling [add] on a value that is not a [Set]. *)
Theorem X2_zip_index_throws_on_prototype_names (rs : list row) :
  (Forall zip_ok rs → ∃ zipData, zip_index rs = Normal zipData)
  ∧ (¬ Forall zip_ok rs →
     zip_index rs = Throw (TypeError "data[zipcode].add is not a function")).
Proof.
  destruct (zip_index_inv rs) as [Hinv _].
  destruct (zip_index rs) as [zipData|e|e]; [| |done].
  - split; [eauto|]. intros Hbad. by destruct Hinv.
  - destruct Hinv as [-> Hbad]. split; done.
Qed.

Lemma X2_zip_index_throws_on_prototype_names_example :
  (∃ zipData, zip_index example_zips = Normal zipData)
  ∧ zip_index [zip_row "64148" "7"; zip_row "constructor" "7";
               zip_row "00601" "1"]
    = Throw (TypeError "data[zipcode].add is not a function").
Proof.
  split.
  - apply (X2_zip_index_throws_on_prototype_names example_zips).
    repeat constructor; vm_compute; intros H;
      repeat (apply elem_of_cons in H as [H|H]; [discriminate H|]);
      by apply not_elem_of_nil in H.
  - apply (X2_zip_index_throws_on_prototype_names
             [zip_row "64148" "7"; zip_row "constructor" "7";
              zip_row "00601" "1"]).
    intros H. apply Forall_cons in H as [_ H]. apply Forall_cons in H as [H _].
    apply H. vm_compute. left.
Defined.

Lemma NoDup_all_equal {A} (a : A) (s : list A) :
  NoDup s → a ∈ s → (∀ x, x ∈ s → x = a) → s = [a].
Proof.
  intros Hnd Ha Hall. destruct s as [|x s]; [by apply not_elem_of_nil in Ha|].
  assert (x = a) as -> by (apply Hall; left).
  apply NoDup_cons in Hnd as [Hx _].
  destruct s as [|y s]; [done|].
  assert (y = a) as -> by (apply Hall; right; left).
  exfalso. apply Hx. left.
Qed.

(** X3: a ZIP code whose rows all give the same rate area, however often
    and however the area is written, maps to that one area. *)
Theorem X3_repeated_zip_rows_give_one_area (rs : list row)
    (zipData : gmap string (list number)) (z : string) (r0 : row) :
  zip_index rs = Normal zipData →
  r0 ∈ rs → row_zipcode r0 = z →
  (∀ r, r ∈ rs → row_zipcode r = z →
        same_value_zero (parseInt (rate_area r)) (parseInt (rate_area r0)) = true) →
  zipData !! z = Some [area_key (parseInt (rate_area r0))].
Proof.
  intros Hidx Hr0 Hz Hsame.
  destruct (zip_index_members rs zipData z Hidx) as [Hnone Hsome].
  destruct (zipData !! z) as [s|] eqn:Hs.
  - destruct (Hsome s eq_refl) as [Hnd Hmem]. f_equal.
    apply NoDup_all_equal; [done|apply Hmem; eauto|].
    intros a (r & Hr & Hrz & <-)%Hmem.
    specialize (Hsame r Hr Hrz). unfold same_value_zero in Hsame.
    by apply bool_decide_eq_true in Hsame.
  - exfalso. apply Hnone; eauto.
Qed.

Lemma X3_repeated_zip_rows_give_one_area_example :
  match zip_index [zip_row "64148" "7"; zip_row "10001" "2";
                   zip_row "64148" "07"; zip_row "64148" "7.0"] with
  | Normal zipData => zipData !! "64148" = Some [parseInt (Some "7")]
  | _ => False
  end.
Proof.
  destruct (zip_index [zip_row "64148" "7"; zip_row "10001" "2";
                       zip_row "64148" "07"; zip_row "64148" "7.0"])
    as [zipData|e|e] eqn:Hidx; [|vm_compute in Hidx; discriminate Hidx..].
  apply (X3_repeated_zip_rows_give_one_area _ zipData "64148"
           (zip_row "64148" "7") Hidx); [left|reflexivity|].
  intros r Hr Hz. apply list_elem_of_In in Hr.
  destruct Hr as [<-|[<-|[<-|[<-|[]]]]]; try (vm_compute; reflexivity).
  vm_compute in Hz. discriminate Hz.
Defined.

Lemma resolve_rate_needs_one_area planData zipData z :
  length (zip_areas zipData z) ≠ 1%nat → resolve_rate planData zipData z = None.
Proof.
  intros Hlen. unfold resolve_rate, JSObject.get, zip_areas in *.
  destruct (zipData !! z) as [rateAreas|]; simpl in *.
  - unfold JSSet.size. by rewrite bool_decide_eq_false_2.
  - by case_bool_decide.
Qed.

(** X4: a ZIP code with rows in two different rate areas is unresolved,
    whatever the plans. *)
Theorem X4_zip_in_two_areas_is_unresolved (rs : list row)
    (zipData : gmap string (list number))
    (planData : gmap number (list number)) (z : string) (r1 r2 : row) :
  zip_index rs = Normal zipData →
  r1 ∈ rs → r2 ∈ rs → row_zipcode r1 = z → row_zipcode r2 = z →
  same_value_zero (parseInt (rate_area r1)) (parseInt (rate_area r2)) = false →
  resolve_rate planData zipData z = None.
Proof.
  intros Hidx Hr1 Hr2 Hz1 Hz2 Hne. apply resolve_rate_needs_one_area.
  destruct (zip_index_members rs zipData z Hidx) as [Hnone Hsome].
  unfold zip_areas.
  destruct (zipData !! z) as [s|] eqn:Hs; simpl; [|done].
  destruct (Hsome s eq_refl) as [Hnd Hmem].
  assert (area_key (parseInt (rate_area r1)) ∈ s) as H1 by (apply Hmem; eauto).
  assert (area_key (parseInt (rate_area r2)) ∈ s) as H2 by (apply Hmem; eauto).
  unfold same_value_zero in Hne. apply bool_decide_eq_false in Hne.
  destruct s as [|x [|y s]]; simpl; [done| |done].
  apply list_elem_of_singleton in H1, H2. unfold area_key in *. congruence.
Qed.

Lemma X4_zip_in_two_areas_is_unresolved_example :
  resolve_rate (preprocessPlanRates (plan_index example_plans))
    example_zipData "00601" = None.
Proof.
  apply (X4_zip_in_two_areas_is_unresolved example_zips _ _ "00601"
           (zip_row "00601" "1") (zip_row "00601" "4"));
    try (vm_compute; reflexivity).
  - right; left.
  - right; right; left.
Defined.

Lemma plan_index_inv rs k :
  match plan_index rs !! k with
  | Some s =>
      ∀ x, x ∈ s ↔ ∃ r, r ∈ rs ∧ is_silver r ∧ row_area r = k
                         ∧ normalize_zero (row_rate r) = x
  | None => ¬ ∃ r, r ∈ rs ∧ is_silver r ∧ row_area r = k
  end.
Proof.
  induction rs as [|r rs IH] using rev_ind.
  - unfold plan_index. simpl. rewrite lookup_empty.
    by intros (? & ?%not_elem_of_nil & _).
  - rewrite plan_index_snoc.
    destruct (decide (is_silver r)) as [Hr|Hr].
    + rewrite parsePlans_row_silver by done.
      destruct (decide (k = row_area r)) as [->|Hne].
      * intros x. rewrite elem_of_add.
        setoid_rewrite elem_of_app. setoid_rewrite list_elem_of_singleton.
        destruct (plan_index rs !! row_area r) as [s|]; simpl.
        -- rewrite IH. split.
           ++ intros [(r' & ? & ? & ? & ?)| ->]; [exists r'|exists r]; auto.
           ++ intros (r' & [?| ->] & ? & ? & <-); [left; exists r'|right]; auto.
        -- split.
           ++ intros [?%not_elem_of_nil| ->]; [done|]. exists r. auto.
           ++ intros (r' & [?| ->] & ? & ? & <-); [|by right].
              exfalso. apply IH. eauto.
      * destruct (plan_index rs !! k) as [s|];
          setoid_rewrite elem_of_app; setoid_rewrite list_elem_of_singleton.
        -- intros x. rewrite IH. split.
           ++ intros (r' & ? & ? & ? & ?). exists r'. auto.
           ++ intros (r' & [?| ->] & ? & ? & ?); [exists r'; auto|done].
        -- intros (r' & [?| ->] & ? & ?); [apply IH; eauto|done].
    + rewrite parsePlans_row_other by done.
      destruct (plan_index rs !! k) as [s|];
        setoid_rewrite elem_of_app; setoid_rewrite list_elem_of_singleton.
      * intros x. rewrite IH. split.
        -- intros (r' & ? & ? & ? & ?). exists r'. auto.
        -- intros (r' & [?| ->] & ? & ? & ?); [exists r'; auto|done].
      * intros (r' & [?| ->] & ? & ?); [apply IH; eauto|done].
Qed.

(** X5: the index [parsePlans] builds has a key exactly for the rate areas
    of the Silver rows, and the set of an area holds exactly the parsed
    rates of its Silver rows, each once. *)
Theorem X5_plan_index_exact (rs : list row) (k : number) :
  (plan_index rs !! k = None
   ↔ ¬ ∃ r, r ∈ rs ∧ metal_level r = Some "Silver" ∧ row_area r = k)
  ∧ ∀ s, plan_index rs !! k = Some s →
      NoDup s
      ∧ ∀ x, x ∈ s ↔ ∃ r, r ∈ rs ∧ metal_level r = Some "Silver"
                          ∧ row_area r = k
                          ∧ normalize_zero (parseFloat (rate r)) = x.
Proof.
  pose proof (plan_index_inv rs k) as Hinv. split.
  - destruct (plan_index rs !! k) as [s|] eqn:Hs; [|done].
    split; [done|]. intros Hnone. exfalso.
    destruct (plan_index_key rs k) as (r & ? & ? & ?); [by rewrite Hs|].
    apply Hnone. eauto.
  - intros s Hs. rewrite Hs in Hinv.
    split; [by destruct (plan_index_sets rs k s Hs)|done].
Qed.

Lemma X5_plan_index_exact_example :
  (plan_index example_plans !! parseInt (Some "7") = None
   ↔ ¬ ∃ r, r ∈ example_plans ∧ metal_level r = Some "Silver"
            ∧ row_area r = parseInt (Some "7"))
  ∧ ∀ s, plan_index example_plans !! parseInt (Some "7") = Some s →
      NoDup s
      ∧ ∀ x, x ∈ s ↔ ∃ r, r ∈ example_plans ∧ metal_level r = Some "Silver"
                          ∧ row_area r = parseInt (Some "7")
                          ∧ normalize_zero (parseFloat (rate r)) = x.
Proof. exact (X5_plan_index_exact example_plans (parseInt (Some "7"))). Defined.

(** X6: [preprocessPlanRates] keeps the keys, and the array of a key has
    the values of its set, as many, also when [NaN] is among them. *)
Theorem X6_preprocessPlanRates_keeps_values
    (planData : gmap number (list number)) (k : number) :
  (preprocessPlanRates planData !! k = None ↔ planData !! k = None)
  ∧ ∀ s, planData !! k = Some s →
      ∃ l, preprocessPlanRates planData !! k = Some l
           ∧ l ≡ₚ s ∧ length l = length s.
Proof.
  rewrite preprocessPlanRates_lookup. split.
  - destruct (planData !! k); simpl; split; congruence.
  - intros s ->. simpl. exists (JSArray.sort sub s).
    split; [done|]. split; [apply sort_perm|apply sort_length].
Qed.

Lemma X6_preprocessPlanRates_keeps_values_example :
  (preprocessPlanRates (plan_index blank_rate_plans) !! parseInt (Some "1") = None
   ↔ plan_index blank_rate_plans !! parseInt (Some "1") = None)
  ∧ ∀ s, plan_index blank_rate_plans !! parseInt (Some "1") = Some s →
      ∃ l, preprocessPlanRates (plan_index blank_rate_plans)
             !! parseInt (Some "1") = Some l
           ∧ l ≡ₚ s ∧ length l = length s.
Proof.
  exact (X6_preprocessPlanRates_keeps_values (plan_index blank_rate_plans)
           (parseInt (Some "1"))).
Defined.

Lemma StronglySorted_lookup_lt {A} (R : A → A → Prop) l i j x y :
  StronglySorted R l → (i < j)%nat →
  l !! i = Some x → l !! j = Some y → R x y.
Proof.
  intros Hs. revert i j. induction Hs as [|z l Hs IH Hall]; intros i j Hij Hi Hj.
  - by rewrite lookup_nil in Hi.
  - destruct j as [|j]; [lia|]. destruct i as [|i]; simpl in *.
    + injection Hi as ->. rewrite Forall_forall in Hall.
      apply Hall. by eapply list_elem_of_lookup_2.
    + apply (IH i j); [lia|done..].
Qed.

(** X7: the array [preprocessPlanRates] makes of a set without [NaN] is
    strictly ascending: an earlier element is below a later one. *)
Theorem X7_preprocessPlanRates_ascending (rs : list row) (k : number)
    (s : list number) :
  plan_index rs !! k = Some s →
  NaN ∉ s →
  ∃ l, preprocessPlanRates (plan_index rs) !! k = Some l
       ∧ ∀ i j x y, (i < j)%nat → l !! i = Some x → l !! j = Some y →
                    number_lt x y.
Proof.
  intros Hs Hnan. exists (JSArray.sort sub s).
  split; [by rewrite preprocessPlanRates_lookup, Hs|].
  destruct (plan_index_sets rs k s Hs) as [Hnd Hnz].
  intros i j x y Hij Hi Hj.
  assert (x ∈ s) as Hx by (eapply sort_elem_of, list_elem_of_lookup_2; done).
  assert (y ∈ s) as Hy by (eapply sort_elem_of, list_elem_of_lookup_2; done).
  apply number_le_neq_lt; try (by intros ->).
  - apply (StronglySorted_lookup_lt number_le (JSArray.sort sub s) i j);
      [by apply sort_sorted|done..].
  - intros ->. rewrite <- sort_perm in Hnd.
    pose proof (NoDup_lookup _ i j y Hnd Hi Hj). lia.
Qed.

Lemma X7_preprocessPlanRates_ascending_example :
  ∃ l, preprocessPlanRates (plan_index example_plans) !! parseInt (Some "7")
       = Some l
       ∧ ∀ i j x y, (i < j)%nat → l !! i = Some x → l !! j = Some y →
                    number_lt x y.
Proof.
  apply (X7_preprocessPlanRates_ascending example_plans (parseInt (Some "7"))
           [parseFloat (Some "200.00"); parseFloat (Some "150.00");
            parseFloat (Some "300")]).
  - vm_compute. reflexivity.
  - intros H. apply list_elem_of_In in H. vm_compute in H.
    destruct H as [H|[H|[H|[]]]]; discriminate H.
Defined.

(** X8: the comparator [(a, b) => a - b] is negative exactly when
    [a < b] and positive exactly when [b < a], also when the difference
    overflows or is subnormal; for two different values, none [NaN], it is
    one or the other. *)
Theorem X8_comparator_orders_by_value (a b : number) :
  is_negative (sub a b) = number_ltb a b
  ∧ is_positive (sub a b) = number_ltb b a
  ∧ (a ≠ NaN → b ≠ NaN → normalize_zero a ≠ normalize_zero b →
     is_negative (sub a b) = true ∨ is_positive (sub a b) = true).
Proof.
  split; [apply comparefn_negative|]. split; [apply comparefn_positive|].
  rewrite comparefn_negative, comparefn_positive. intros Ha Hb Hne.
  destruct a as [|[]| |x], b as [|[]| |y]; simpl in *; try done; auto.
  - destruct (Z.ltb_spec 0 y), (Z.ltb_spec y 0); auto.
    exfalso. apply Hne. f_equal. lia.
  - destruct (Z.ltb_spec 0 x), (Z.ltb_spec x 0); auto.
    exfalso. apply Hne. f_equal. lia.
  - destruct (Z.ltb_spec x y), (Z.ltb_spec y x); auto.
    exfalso. apply Hne. f_equal. lia.
Qed.

Lemma X8_comparator_orders_by_value_example :
  is_positive (sub (parseFloat (Some "1.7e308")) (parseFloat (Some "-1.7e308")))
  = true
  ∧ is_negative (sub (parseFloat (Some "5e-324")) (parseFloat (Some "1e-323")))
    = true.
Proof.
  split.
  - destruct (X8_comparator_orders_by_value (parseFloat (Some "1.7e308"))
                (parseFloat (Some "-1.7e308"))) as (_ & -> & _).
    vm_compute. reflexivity.
  - destruct (X8_comparator_orders_by_value (parseFloat (Some "5e-324"))
                (parseFloat (Some "1e-323"))) as (-> & _ & _).
    vm_compute. reflexivity.
Defined.


(** A ZIP code resolves to a text exactly when it maps to one rate
    area whose array has an element at index 1, and the text is
    [toFixed(2)] of that element. *)
Lemma resolve_rate_resolved_iff (planData : gmap number (list number))
    (zipData : gmap string (list number)) (z t : string) :
  resolve_rate planData zipData z = Some t
  ↔ ∃ a rates x, zipData !! z = Some [a]
                 ∧ planData !! area_key a = Some rates
                 ∧ rates !! 1%nat = Some x
                 ∧ t = toFixed 2 x.
Proof.
  unfold resolve_rate, JSObject.get, JSSet.size. split.
  - destruct (zipData !! z) as [rateAreas|] eqn:Hz;
      [|case_bool_decide; discriminate].
    case_bool_decide as Hsize; [|done].
    destruct rateAreas as [|a [|? ?]]; try done.
    destruct (planData !! area_key a) as [rates|] eqn:Hp; [|done].
    case_bool_decide; [|done].
    destruct (rates !! 1%nat) as [x|] eqn:Hx; [|done].
    simpl. intros [= <-]. by exists a, rates, x.
  - intros (a & rates & x & -> & -> & Hx & ->). simpl.
    rewrite bool_decide_eq_true_2.
    + by rewrite Hx.
    + apply lookup_lt_Some in Hx. lia.
Qed.


(** X10: the rate of a ZIP code depends on the entry of that ZIP code and on
    the arrays of its rate areas alone. *)
Theorem X10_resolve_rate_is_local
    (planData1 planData2 : gmap number (list number))
    (zipData1 zipData2 : gmap string (list number)) (z : string) :
  zipData1 !! z = zipData2 !! z →
  (∀ a, a ∈ zip_areas zipData1 z →
        planData1 !! area_key a = planData2 !! area_key a) →
  resolve_rate planData1 zipData1 z = resolve_rate planData2 zipData2 z.
Proof.
  intros Hz Hp. unfold resolve_rate, JSObject.get, zip_areas in *.
  rewrite <- Hz. destruct (zipData1 !! z) as [rateAreas|];
    [|by destruct (bool_decide (z ∈ JSObject.prototype_members))].
  simpl in Hp. case_bool_decide; [|reflexivity].
  destruct rateAreas as [|a ?]; [reflexivity|].
  rewrite (Hp a); [reflexivity|]. left.
Qed.

Lemma X10_resolve_rate_is_local_example :
  resolve_rate (preprocessPlanRates (plan_index example_plans))
    example_zipData "64148"
  = resolve_rate
      (preprocessPlanRates
         (plan_index (example_plans ++ [plan_row "Silver" "1.00" "2"])))
      (<["10001" := []]> example_zipData) "64148".
Proof.
  apply X10_resolve_rate_is_local.
  - vm_compute. reflexivity.
  - intros a Ha. vm_compute in Ha. apply list_elem_of_singleton in Ha as ->.
    vm_compute. reflexivity.
Defined.

(** X11: [processSLCSP] logs the line [zipcode, rate] and then one line for
    each row of the request, repeated ZIP codes included, in the order of
    the request and however the stream ends; it leaves the files and the
    standard error stream as they are. *)
Theorem X11_processSLCSP_logs_every_row (planData : gmap number (list number))
    (zipData : gmap string (list number)) (w : world) :
  fs (processSLCSP planData zipData w).2 = fs w
  ∧ stderr (processSLCSP planData zipData w).2 = stderr w
  ∧ stdout (processSLCSP planData zipData w).2
    = stdout w ++ "zipcode, rate"
        :: ((λ r, row_zipcode r +:+ ", "
                  +:+ rate_field (resolve_rate planData zipData (row_zipcode r)))
              <$> rows (slcp (fs w))).
Proof. by rewrite processSLCSP_eq. Qed.

Section key_order.

Lemma first_occurrences_snoc l k :
  first_occurrences (l ++ [k])
  = if decide (k ∈ l) then first_occurrences l else first_occurrences l ++ [k].
Proof.
  unfold first_occurrences. rewrite reverse_snoc. cbn [remove_dups].
  destruct (decide_rel elem_of k (reverse l)) as [Hin|Hin];
    rewrite elem_of_reverse in Hin.
  - by rewrite decide_True.
  - by rewrite decide_False, reverse_cons.
Qed.

Lemma elem_of_first_occurrences l k : k ∈ first_occurrences l ↔ k ∈ l.
Proof.
  unfold first_occurrences.
  by rewrite elem_of_reverse, elem_of_remove_dups, elem_of_reverse.
Qed.

Lemma first_occurrences_NoDup l : NoDup l → first_occurrences l = l.
Proof.
  induction l as [|k l IH] using rev_ind; [done|].
  intros [Hnd [Hk _]]%NoDup_app. rewrite first_occurrences_snoc.
  rewrite decide_False, IH; [done..|].
  intros Hin. apply (Hk k Hin). left.
Qed.

Lemma request_keys_snoc rs r :
  request_keys (rs ++ [r])
  = if decide (row_zipcode r = "__proto__") then request_keys rs
    else request_keys rs ++ [row_zipcode r].
Proof.
  unfold request_keys. rewrite fmap_app, filter_app. simpl.
  case_decide as Hp.
  - rewrite filter_cons_False by (by intros ?). by rewrite app_nil_r.
  - by rewrite filter_cons_True.
Qed.

End key_order.

Section data_order.

Context (planData : gmap number (list number)).
Context (zipData : gmap string (list number)).

Lemma slcsp_data_keys rs :
  (slcsp_data planData zipData rs).*1 = first_occurrences (request_keys rs).
Proof.
  induction rs as [|r rs IH] using rev_ind; [done|].
  rewrite slcsp_data_snoc, request_keys_snoc. unfold JSObject.set_primitive.
  destruct (String.eqb_spec (row_zipcode r) "__proto__") as [Hp|Hp].
  - by rewrite decide_True.
  - rewrite decide_False by done.
    rewrite set_own_keys, first_occurrences_snoc, IH.
    destruct (decide (row_zipcode r ∈ first_occurrences (request_keys rs)))
      as [Hin|Hin]; rewrite elem_of_first_occurrences in Hin.
    + by rewrite decide_True.
    + by rewrite decide_False.
Qed.

Lemma keyed_list_eq {V} (f : string → V) (o : list (string * V)) :
  (∀ k v, (k, v) ∈ o → v = f k) → o = (λ k, (k, f k)) <$> o.*1.
Proof.
  induction o as [|[k v] o IH]; intros Hval; [done|].
  rewrite !fmap_cons. cbn [fst]. f_equal.
  - f_equal. apply Hval. left.
  - apply IH. intros k' v' Hin. apply Hval. by right.
Qed.

Lemma slcsp_data_formula (rs : list row) :
  slcsp_data planData zipData rs
  = (λ k, (k, resolve_rate planData zipData k))
      <$> first_occurrences (request_keys rs).
Proof.
  rewrite <- slcsp_data_keys. apply keyed_list_eq.
  intros k v Hin. by apply slcsp_data_properties in Hin as (_ & _ & ->).
Qed.

End data_order.

(** X12: the object [processSLCSP] resolves with has one property for each
    ZIP code of the request but [__proto__], created where the ZIP code
    first occurs, whose value is the rate of the ZIP code. *)
Theorem X12_slcsp_data_exact (planData : gmap number (list number))
    (zipData : gmap string (list number)) (rs : list row) :
  slcsp_data planData zipData rs
  = (λ k, (k, resolve_rate planData zipData k))
      <$> first_occurrences (request_keys rs).
Proof. apply slcsp_data_formula. Qed.

Section numerals.

Import JSObject.

Lemma is_digit_value c :
  is_digit c = true →
  digit_value 10 c = Some (code c - 48) ∧ 0 ≤ code c - 48 < 10.
Proof.
  unfold is_digit, digit_value. intros [H1 H2]%andb_prop.
  rewrite H1, H2. simpl.
  apply Z.leb_le in H1, H2.
  destruct (Z.ltb_spec (code c - 48) 10); [|lia]. split; [done|lia].
Qed.

Lemma code_inj c1 c2 : code c1 = code c2 → c1 = c2.
Proof.
  unfold code. intros H%(inj Z.of_N).
  by rewrite <- (ascii_N_embedding c1), <- (ascii_N_embedding c2), H.
Qed.

Lemma numeral_value_bounds s :
  all_digits s = true →
  0 ≤ numeral_value s < 10 ^ Z.of_nat (String.length s).
Proof.
  induction s as [|c r IH]; simpl; [lia|].
  intros [Hc Hr]%andb_prop. specialize (IH Hr).
  destruct (is_digit_value c Hc) as [_ Hd].
  rewrite Nat2Z.inj_succ, Z.pow_succ_r by lia.
  assert (0 < 10 ^ Z.of_nat (String.length r)) by (apply Z.pow_pos_nonneg; lia).
  nia.
Qed.

Lemma take_digits_numeral s acc cnt :
  all_digits s = true →
  take_digits 10 s acc cnt
  = (acc * 10 ^ Z.of_nat (String.length s) + numeral_value s,
     cnt + Z.of_nat (String.length s), EmptyString).
Proof.
  revert acc cnt. induction s as [|c r IH]; intros acc cnt; simpl.
  - intros _. repeat f_equal; lia.
  - intros [Hc Hr]%andb_prop. destruct (is_digit_value c Hc) as [-> _].
    rewrite IH by done. rewrite Nat2Z.inj_succ, Z.pow_succ_r by lia.
    f_equal. f_equal; [ring|lia].
Qed.

Lemma numeral_value_inj s1 s2 :
  all_digits s1 = true → all_digits s2 = true →
  String.length s1 = String.length s2 →
  numeral_value s1 = numeral_value s2 → s1 = s2.
Proof.
  revert s2. induction s1 as [|c1 r1 IH]; intros [|c2 r2]; simpl; try done.
  intros [Hc1 Hr1]%andb_prop [Hc2 Hr2]%andb_prop [= Hlen] Hval.
  pose proof (numeral_value_bounds r1 Hr1) as Hb1.
  pose proof (numeral_value_bounds r2 Hr2) as Hb2.
  rewrite Hlen in *.
  set (P := 10 ^ Z.of_nat (String.length r2)) in *.
  assert (code c1 - 48 = code c2 - 48) as Hc.
  { destruct (Z.lt_trichotomy (code c1 - 48) (code c2 - 48)) as [?|[?|?]];
      [nia|done|nia]. }
  assert (numeral_value r1 = numeral_value r2) as Hr by (rewrite Hc in Hval; lia).
  f_equal; [apply code_inj; lia|by apply IH].
Qed.

Lemma array_index_Some k i :
  array_index k = Some i → canonical k ∧ numeral_value k = i.
Proof.
  unfold array_index. destruct k as [|c r]; [done|].
  destruct (all_digits (String c r)) eqn:Hdig; [|done]. rewrite andb_true_l.
  destruct (negb (Ascii.eqb c "0") || String.eqb r "") eqn:Hcanon; [|done].
  rewrite take_digits_numeral by done. rewrite Z.mul_0_l, Z.add_0_l.
  case_match; [|done]. intros [= <-]. split; [|done]. split; [done|].
  apply orb_prop in Hcanon as [Hc|Hr].
  - left. apply negb_true_iff in Hc. by apply Ascii.eqb_neq in Hc.
  - right. by apply String.eqb_eq in Hr.
Qed.

Lemma canonical_lower_bound k :
  canonical k →
  k = "0" ∨ 10 ^ (Z.of_nat (String.length k) - 1) ≤ numeral_value k.
Proof.
  destruct k as [|c r]; [done|]. intros [Hdig [Hc| ->]].
  - right. simpl in Hdig. apply andb_prop in Hdig as [Hd Hr].
    pose proof (numeral_value_bounds r Hr).
    destruct (is_digit_value c Hd) as [_ Hrange].
    assert (code c ≠ 48).
    { intros Hcode. apply Hc. apply code_inj. by rewrite Hcode. }
    cbn [String.length numeral_value].
    replace (Z.of_nat (S (String.length r)) - 1)
      with (Z.of_nat (String.length r)) by lia.
    assert (0 < 10 ^ Z.of_nat (String.length r))
      by (apply Z.pow_pos_nonneg; lia).
    nia.
  - simpl in Hdig. apply andb_prop in Hdig as [Hd _].
    destruct (is_digit_value c Hd) as [_ Hrange].
    destruct (decide (code c = 48)) as [Hcode|Hcode].
    + left. f_equal. apply code_inj. by rewrite Hcode.
    + right. simpl. lia.
Qed.

Lemma canonical_all_digits k : canonical k → all_digits k = true.
Proof. destruct k; [done|]. by intros [? _]. Qed.

Lemma canonical_inj k1 k2 :
  canonical k1 → canonical k2 → numeral_value k1 = numeral_value k2 → k1 = k2.
Proof.
  intros H1 H2 Hval.
  pose proof (numeral_value_bounds k1 (canonical_all_digits k1 H1)) as Hb1.
  pose proof (numeral_value_bounds k2 (canonical_all_digits k2 H2)) as Hb2.
  destruct (canonical_lower_bound k1 H1) as [->|Hl1],
           (canonical_lower_bound k2 H2) as [->|Hl2]; [done| | |].
  - exfalso. change (numeral_value "0") with 0 in Hval.
    assert (0 < 10 ^ (Z.of_nat (String.length k2) - 1)); [|lia].
    apply Z.pow_pos_nonneg; [lia|]. destruct k2; [done|]. simpl. lia.
  - exfalso. change (numeral_value "0") with 0 in Hval.
    assert (0 < 10 ^ (Z.of_nat (String.length k1) - 1)); [|lia].
    apply Z.pow_pos_nonneg; [lia|]. destruct k1; [done|]. simpl. lia.
  - apply numeral_value_inj;
      [by apply canonical_all_digits..| |done].
    assert (∀ n m : nat, 10 ^ (Z.of_nat n - 1) ≤ numeral_value k1 →
              numeral_value k1 < 10 ^ Z.of_nat m → (n ≤ m)%nat) as Hmono.
    { intros n m Hlo Hhi. destruct (decide (n ≤ m)%nat); [done|]. exfalso.
      assert (10 ^ Z.of_nat m ≤ 10 ^ (Z.of_nat n - 1)); [|lia].
      apply Z.pow_le_mono_r; lia. }
    apply Nat.le_antisymm.
    + apply Hmono; [done|]. rewrite Hval. lia.
    + apply Hmono; [by rewrite Hval|lia].
Qed.

Lemma array_index_inj k1 k2 i :
  array_index k1 = Some i → array_index k2 = Some i → k1 = k2.
Proof.
  intros [H1 <-]%array_index_Some [H2 Hv]%array_index_Some.
  by apply canonical_inj.
Qed.

End numerals.

Section entries_order.

Import JSObject.

Context {V : Type}.
Implicit Types (o : list (string * V)).

Lemma insert_index_tags i (e : string * V) l :
  array_index e.1 = Some i →
  Forall (λ p, array_index p.2.1 = Some p.1) l →
  Forall (λ p, array_index p.2.1 = Some p.1) (insert_index i e l).
Proof.
  intros He Hl. induction Hl as [|[j e'] l Hj Hl IH]; simpl.
  - by repeat constructor.
  - destruct (i <? j); repeat constructor; done.
Qed.

Lemma index_entries_tags o :
  Forall (λ p, array_index p.2.1 = Some p.1) (index_entries o).
Proof.
  induction o as [|[k v] o IH]; simpl; [constructor|].
  destruct (array_index k) as [i|] eqn:Hk; [|done].
  by apply insert_index_tags.
Qed.

Lemma insert_index_sorted i (e : string * V) l :
  StronglySorted (λ p q, p.1 ≤ q.1) l →
  StronglySorted (λ p q, p.1 ≤ q.1) (insert_index i e l).
Proof.
  intros Hs. induction Hs as [|[j e'] l Hs IH Hall]; simpl.
  - repeat constructor.
  - destruct (Z.ltb_spec i j).
    + constructor; [by constructor|]. constructor; [simpl; lia|].
      eapply Forall_impl; [exact Hall|]. simpl. intros. lia.
    + constructor; [done|]. rewrite insert_index_perm.
      constructor; [simpl; lia|done].
Qed.

Lemma index_entries_sorted o :
  StronglySorted (λ p q, p.1 ≤ q.1) (index_entries o).
Proof.
  induction o as [|[k v] o IH]; simpl; [constructor|].
  destruct (array_index k); [by apply insert_index_sorted|done].
Qed.

Lemma StronglySorted_strict {A} (f : A → Z) (l : list A) :
  StronglySorted (λ p q, f p ≤ f q) l → NoDup (f <$> l) →
  StronglySorted (λ p q, f p < f q) l.
Proof.
  induction 1 as [|x l Hs IH Hall]; [constructor|].
  rewrite fmap_cons. intros [Hx Hnd]%NoDup_cons.
  constructor; [by apply IH|].
  rewrite Forall_forall in *. intros y Hy.
  specialize (Hall y Hy). simpl in Hall.
  assert (f x ≠ f y); [|lia].
  intros Heq. apply Hx. rewrite Heq. by apply list_elem_of_fmap_2.
Qed.

(** X13: [Object.entries] of an object lists the properties whose key is an
    array index first, in strictly ascending numeric order, and then the
    other properties in the order of their creation. *)
Theorem X13_entries_lists_array_indexes_first o :
  NoDup o.*1 →
  ∃ indexed,
    entries o = indexed ++ filter (λ e, array_index e.1 = None) o
    ∧ indexed ≡ₚ filter (λ e, ¬ array_index e.1 = None) o
    ∧ StronglySorted index_lt indexed.*1.
Proof.
  intros Hnd. exists (index_entries o).*2.
  split; [done|]. split; [apply index_entries_perm|].
  pose proof (index_entries_tags o) as Htags.
  assert (NoDup (index_entries o).*2.*1) as Hkeys.
  { rewrite index_entries_perm.
    eapply sublist_NoDup; [exact Hnd|]. apply fmap_sublist, sublist_filter. }
  assert (NoDup (index_entries o).*1) as Hidx.
  { clear -Htags Hkeys. induction Htags as [|[i [k v]] l Hi Hl IH]; [constructor|].
    rewrite !fmap_cons in *. simpl in *.
    apply NoDup_cons in Hkeys as [Hk Hnd]. apply NoDup_cons.
    split; [|by apply IH].
    intros ([j [k' v']] & Hj & Hin)%list_elem_of_fmap. simpl in Hj. subst j.
    rewrite Forall_forall in Hl. pose proof (Hl _ Hin) as Hk'. simpl in Hk'.
    apply Hk. rewrite (array_index_inj k k' i Hi Hk').
    apply list_elem_of_fmap. exists (k', v'). split; [done|].
    apply list_elem_of_fmap. by exists (i, (k', v')). }
  pose proof (StronglySorted_strict fst _ (index_entries_sorted o) Hidx) as Hs.
  clear -Hs Htags. induction Hs as [|[i [k v]] l Hs IH Hall]; [constructor|].
  apply Forall_cons in Htags as [Hi Htags]. simpl in *.
  constructor; [by apply IH|].
  rewrite Forall_forall in Htags. rewrite Forall_forall in Hall.
  apply Forall_forall.
  intros k' ([k'' v'] & -> & ([j e] & -> & Hin)%list_elem_of_fmap)%list_elem_of_fmap.
  simpl. exists i, j.
  split; [done|]. split; [apply (Htags _ Hin)|apply (Hall _ Hin)].
Qed.

End entries_order.

Lemma X13_entries_lists_array_indexes_first_example :
  ∃ indexed,
    JSObject.entries [("64148", 1); ("00601", 2); ("40813", 3)]
    = indexed ++ filter (λ e, JSObject.array_index e.1 = None)
                   [("64148", 1); ("00601", 2); ("40813", 3)]
    ∧ indexed ≡ₚ filter (λ e, ¬ JSObject.array_index e.1 = None)
                   [("64148", 1); ("00601", 2); ("40813", 3)]
    ∧ StronglySorted index_lt indexed.*1.
Proof.
  apply (X13_entries_lists_array_indexes_first
           [("64148", 1); ("00601", 2); ("40813", 3)]).
  apply (bool_decide_unpack _). vm_compute. exact I.
Defined.

Section request_order.

Import JSObject.

Context {V : Type}.
Implicit Types (o : list (string * V)).

Lemma entries_without_indexes o :
  Forall (λ k, array_index k = None) o.*1 → entries o = o.
Proof.
  intros Hall. unfold entries.
  assert (index_entries o = [] ∧ filter (λ e, array_index e.1 = None) o = o)
    as [-> ->]; [|done].
  induction o as [|[k v] o IH]; [done|].
  rewrite fmap_cons in Hall. apply Forall_cons in Hall as [Hk Hall].
  destruct (IH Hall) as [IH1 IH2]. simpl in *. rewrite Hk, IH1. split; [done|].
  rewrite filter_cons_True by done. by rewrite IH2.
Qed.

Lemma entries_ascending o :
  StronglySorted index_lt o.*1 → entries o = o.
Proof.
  intros Hs. unfold entries.
  destruct o as [|e0 o0]; [done|].
  destruct o0 as [|e1 o1].
  { destruct e0 as [k v]. simpl. destruct (array_index k) eqn:Hk; simpl.
    - rewrite filter_cons_False, filter_nil; [done|]. simpl. by rewrite Hk.
    - rewrite filter_cons_True, filter_nil; [done|]. simpl. by rewrite Hk. }
  set (o := e0 :: e1 :: o1) in *.
  assert (Forall (λ e, is_Some (array_index e.1)) o) as Hidx.
  { unfold o in *. rewrite !fmap_cons in Hs.
    apply StronglySorted_inv in Hs as [_ Hall].
    apply Forall_cons in Hall as [(i & j & Hi & Hj & _) Hall].
    constructor; [by rewrite Hi|]. constructor; [by rewrite Hj|].
    rewrite Forall_fmap in Hall. eapply Forall_impl; [exact Hall|].
    intros e (? & j' & _ & Hj' & _). simpl in Hj'. by rewrite Hj'. }
  clearbody o. clear e0 e1 o1.
  assert ((index_entries o).*2 = o) as ->.
  { induction o as [|[k v] o IH]; [done|].
    rewrite fmap_cons in Hs. apply StronglySorted_inv in Hs as [Hs Hall].
    apply Forall_cons in Hidx as [[i Hi] Hidx]. simpl in Hi.
    specialize (IH Hs Hidx). simpl. rewrite Hi.
    assert (Forall (λ p, i < p.1) (index_entries o)) as Hgt.
    { pose proof (index_entries_tags o) as Htags.
      rewrite Forall_forall in Hall. rewrite Forall_forall in Htags.
      apply Forall_forall.
      intros [j [k' v']] Hin. specialize (Htags _ Hin). simpl in *.
      destruct (Hall k') as (i' & j' & Hi' & Hj' & Hlt).
      - rewrite <- IH. apply list_elem_of_fmap. exists (k', v').
        split; [done|]. apply list_elem_of_fmap. by exists (j, (k', v')).
      - congruence. }
    destruct (index_entries o) as [|[j e'] l] eqn:Hie; simpl.
    - simpl in IH. by rewrite <- IH.
    - apply Forall_cons in Hgt as [Hj _]. simpl in Hj.
      destruct (Z.ltb_spec i j); [|lia]. simpl. by rewrite <- IH. }
  assert (filter (λ e, array_index e.1 = None) o = []) as ->;
    [|by rewrite app_nil_r].
  clear Hs. induction Hidx as [|e o [i Hi] Hidx IH]; [done|].
  rewrite filter_cons_False; [done|]. by rewrite Hi.
Qed.

End request_order.

(** X14: when no ZIP code of the request repeats or is [__proto__], and
    either none is an array index or all are, in ascending order, the
    written file has the rows of the request in the order of the
    request. *)
Theorem X14_request_order_kept (planData : gmap number (list number))
    (zipData : gmap string (list number)) (rs : list row) :
  NoDup (row_zipcode <$> rs) →
  "__proto__" ∉ row_zipcode <$> rs →
  Forall (λ k, JSObject.array_index k = None) (row_zipcode <$> rs)
  ∨ StronglySorted index_lt (row_zipcode <$> rs) →
  csv_content (slcsp_data planData zipData rs)
  = join_lines
      ("zipcode,rate"
       :: ((λ r, row_zipcode r +:+ ","
                 +:+ rate_field (resolve_rate planData zipData (row_zipcode r)))
             <$> rs)).
Proof.
  intros Hnd Hproto Horder.
  assert (request_keys rs = row_zipcode <$> rs) as Hkeys.
  { unfold request_keys. clear Hnd Horder.
    induction (row_zipcode <$> rs) as [|k l IH]; [done|].
    rewrite filter_cons_True.
    - rewrite IH; [done|]. intros ?. apply Hproto. by right.
    - intros ->. apply Hproto. left. }
  assert (slcsp_data planData zipData rs
          = (λ r, (row_zipcode r, resolve_rate planData zipData (row_zipcode r)))
              <$> rs) as Hdata.
  { rewrite slcsp_data_formula, Hkeys, first_occurrences_NoDup by done.
    by rewrite <- list_fmap_compose. }
  assert (JSObject.entries (slcsp_data planData zipData rs)
          = slcsp_data planData zipData rs) as Hentries.
  { assert ((slcsp_data planData zipData rs).*1 = row_zipcode <$> rs) as Hk.
    { rewrite Hdata, <- list_fmap_compose. done. }
    destruct Horder as [Hnone|Hasc].
    - apply entries_without_indexes. by rewrite Hk.
    - apply entries_ascending. by rewrite Hk. }
  unfold csv_content. rewrite Hentries, Hdata, <- list_fmap_compose. done.
Qed.

Lemma X14_request_order_kept_example :
  csv_content
    (slcsp_data (preprocessPlanRates (plan_index example_plans)) example_zipData
       [request_row "10001"; request_row "40813"; request_row "64148"])
  = join_lines
      ("zipcode,rate"
       :: ((λ r, row_zipcode r +:+ ","
                 +:+ rate_field
                       (resolve_rate (preprocessPlanRates (plan_index example_plans))
                          example_zipData (row_zipcode r)))
             <$> [request_row "10001"; request_row "40813";
                  request_row "64148"])).
Proof.
  apply X14_request_order_kept.
  - apply (bool_decide_unpack _). vm_compute. exact I.
  - intros H. apply list_elem_of_In in H. vm_compute in H.
    destruct H as [H|[H|[H|[]]]]; discriminate H.
  - right. repeat constructor; eexists _, _;
      (split; [vm_compute; reflexivity|]);
      (split; [vm_compute; reflexivity|]); reflexivity.
Defined.

Section whole_run.

(** X15: when the three streams end with [end], no row of the ZIP file
    throws and the output can be written, the run writes the rows of the
    resolved request, logs the header, a line for each row and the final
    message, and reports no error. *)
Theorem X15_run_completes (w : world) (zipData : gmap string (list number)) :
  ending (plans (fs w)) = End →
  zip_index (rows (zips (fs w))) = Normal zipData →
  ending (zips (fs w)) = End →
  ending (slcp (fs w)) = End →
  output_writable (fs w) = true →
  run w
  = World
      (Files (plans (fs w)) (zips (fs w)) (slcp (fs w))
         (Some (csv_content
                  (slcsp_data (preprocessPlanRates (plan_index (rows (plans (fs w)))))
                     zipData (rows (slcp (fs w))))))
         true)
      (stdout w
       ++ "zipcode, rate"
          :: slcsp_log (preprocessPlanRates (plan_index (rows (plans (fs w)))))
               zipData (rows (slcp (fs w)))
       ++ ["CSV file has been created at ./slcsp/slcsp_complete.csv"])
      (stderr w).
Proof.
  intros Hp Hz Hze Hs Hw. rewrite run_eq, Hp, Hz, Hze, Hs, Hw. cbv zeta.
  unfold files_after, output_content. rewrite Hp, Hz, Hze, Hs, Hw.
  f_equal. by rewrite <- app_assoc.
Qed.

Lemma X15_run_completes_example :
  stderr (run (example_world repeating_request)) = []
  ∧ output (fs (run (example_world repeating_request)))
    = Some (csv_content
              (slcsp_data (preprocessPlanRates (plan_index example_plans))
                 example_zipData repeating_request)).
Proof.
  rewrite (X15_run_completes (example_world repeating_request) example_zipData);
    [split; reflexivity|vm_compute; reflexivity..].
Defined.



(** X17: when reading the plans or the ZIP codes fails, the request is not
    read: nothing is logged, not even the header line, and no file
    changes. *)
Theorem X17_failed_index_logs_nothing (w : world) :
  ending (plans (fs w)) ≠ End
  ∨ (∀ zipData, zip_index (rows (zips (fs w))) ≠ Normal zipData)
  ∨ ending (zips (fs w)) ≠ End →
  stdout (run w) = stdout w ∧ fs (run w) = fs w.
Proof.
  intros Hfail. rewrite run_eq.
  destruct (ending (plans (fs w))); [|done..].
  destruct (zip_index (rows (zips (fs w)))) as [zipData| |]; [|done..].
  destruct (ending (zips (fs w))); [|done..].
  destruct Hfail as [?|[Hz|?]]; [done| |done]. by destruct (Hz zipData).
Qed.

Lemma X17_failed_index_logs_nothing_example :
  stdout (run failing_world) = stdout failing_world
  ∧ fs (run failing_world) = fs failing_world.
Proof.
  apply X17_failed_index_logs_nothing. right; right. discriminate.
Defined.

(** X18: when the stream of the request fails, the rows it emitted before
    are already logged, after the header line, and no file changes. *)
Theorem X18_failed_request_is_logged_so_far (w : world)
    (zipData : gmap string (list number)) :
  ending (plans (fs w)) = End →
  zip_index (rows (zips (fs w))) = Normal zipData →
  ending (zips (fs w)) = End →
  ending (slcp (fs w)) ≠ End →
  fs (run w) = fs w
  ∧ stdout (run w)
    = stdout w
      ++ "zipcode, rate"
         :: slcsp_log (preprocessPlanRates (plan_index (rows (plans (fs w)))))
              zipData (rows (slcp (fs w))).
Proof.
  intros Hp Hz Hze Hs. rewrite run_eq, Hp, Hz, Hze. cbv zeta.
  by destruct (ending (slcp (fs w))).
Qed.

Lemma X18_failed_request_is_logged_so_far_example :
  fs (run failing_request_world) = fs failing_request_world
  ∧ stdout (run failing_request_world)
    = stdout failing_request_world
      ++ "zipcode, rate"
         :: slcsp_log
              (preprocessPlanRates
                 (plan_index (rows (plans (fs failing_request_world)))))
              example_zipData (rows (slcp (fs failing_request_world))).
Proof.
  apply (X18_failed_request_is_logged_so_far failing_request_world
           example_zipData); try (vm_compute; reflexivity).
  discriminate.
Defined.



End whole_run.

Section row_order.

Lemma number_le_antisym x y :
  x ≠ NaN → y ≠ NaN → x ≠ NegZero → y ≠ NegZero →
  number_le x y → number_le y x → x = y.
Proof.
  intros ? ? ? ? Hxy Hyx. destruct (decide (x = y)) as [|Hne]; [done|].
  pose proof (number_le_neq_lt x y) as Hlt. unfold number_le, number_lt in *.
  rewrite Hlt in Hyx; done.
Qed.

Lemma sort_permutation_eq (s1 s2 : list number) :
  s1 ≡ₚ s2 → NaN ∉ s1 → NegZero ∉ s1 →
  JSArray.sort sub s1 = JSArray.sort sub s2.
Proof.
  intros Hperm Hnan Hnz.
  apply (StronglySorted_unique_strong number_le).
  - intros x1 x2 Hx1 Hx2.
    apply (proj1 (sort_elem_of _ _)) in Hx1.
    apply (proj1 (sort_elem_of _ _)) in Hx2.
    rewrite <- Hperm in Hx2.
    apply number_le_antisym; by intros ->.
  - by apply sort_sorted.
  - apply sort_sorted. by rewrite <- Hperm.
  - by rewrite !sort_perm.
Qed.

(** X20: the sorted array does not depend on the order in which the values
    entered the set, when [NaN] is not among them (a set built by [add]
    never holds [-0]). *)
Theorem X20_sort_ignores_insertion_order (s1 s2 : list number) :
  s1 ≡ₚ s2 → NaN ∉ s1 → NegZero ∉ s1 →
  JSArray.sort sub s1 = JSArray.sort sub s2.
Proof. apply sort_permutation_eq. Qed.

Lemma X20_sort_ignores_insertion_order_example :
  JSArray.sort sub [parseFloat (Some "200.00"); parseFloat (Some "150.00");
                    parseFloat (Some "300")]
  = JSArray.sort sub [parseFloat (Some "300"); parseFloat (Some "200.00");
                      parseFloat (Some "150.00")].
Proof.
  apply X20_sort_ignores_insertion_order.
  - symmetry. apply (Permutation_cons_append [_; _]).
  - intros H. apply list_elem_of_In in H. vm_compute in H.
    destruct H as [H|[H|[H|[]]]]; discriminate H.
  - intros H. apply list_elem_of_In in H. vm_compute in H.
    destruct H as [H|[H|[H|[]]]]; discriminate H.
Defined.

Lemma normalize_zero_NaN x : normalize_zero x = NaN → x = NaN.
Proof. by destruct x. Qed.

Lemma plan_arrays_ignore_row_order plans1 plans2 :
  plans1 ≡ₚ plans2 →
  (∀ r, r ∈ plans1 → is_silver r → row_rate r ≠ NaN) →
  preprocessPlanRates (plan_index plans1)
  = preprocessPlanRates (plan_index plans2).
Proof.
  intros Hperm Hnan. apply map_eq. intros k.
  rewrite !preprocessPlanRates_lookup.
  pose proof (plan_index_inv plans1 k) as H1.
  pose proof (plan_index_inv plans2 k) as H2.
  destruct (plan_index plans1 !! k) as [s1|] eqn:Hs1,
           (plan_index plans2 !! k) as [s2|] eqn:Hs2; simpl.
  - f_equal. apply sort_permutation_eq.
    + apply NoDup_Permutation;
        [by destruct (plan_index_sets _ _ _ Hs1)
        |by destruct (plan_index_sets _ _ _ Hs2)|].
      intros x. rewrite H1, H2. by setoid_rewrite Hperm.
    + intros (r & Hr & Hsilver & _ & Hx%normalize_zero_NaN)%H1.
      by apply (Hnan r).
    + by destruct (plan_index_sets _ _ _ Hs1).
  - exfalso. destruct (plan_index_key plans1 k) as (r & Hr & ? & ?);
      [by rewrite Hs1|]. apply H2. exists r. by rewrite <- Hperm.
  - exfalso. destruct (plan_index_key plans2 k) as (r & Hr & ? & ?);
      [by rewrite Hs2|]. apply H1. exists r. by rewrite Hperm.
  - done.
Qed.

(** X21: the rate of every ZIP code is the same for the rows of the plan
    file and of the ZIP file in any other order, when no Silver rate parses
    to [NaN]. *)
Theorem X21_resolution_ignores_row_order (plans1 plans2 zips1 zips2 : list row)
    (zipData1 : gmap string (list number)) :
  plans1 ≡ₚ plans2 → zips1 ≡ₚ zips2 →
  (∀ r, r ∈ plans1 → metal_level r = Some "Silver" →
        parseFloat (rate r) ≠ NaN) →
  zip_index zips1 = Normal zipData1 →
  ∃ zipData2,
    zip_index zips2 = Normal zipData2
    ∧ ∀ z, resolve_rate (preprocessPlanRates (plan_index plans1)) zipData1 z
           = resolve_rate (preprocessPlanRates (plan_index plans2)) zipData2 z.
Proof.
  intros Hplans Hzips Hnan Hz1.
  destruct (zip_index_inv zips1) as [Hinv1 Hkey1]. rewrite Hz1 in Hinv1.
  destruct Hinv1 as [Hok1 Hsets1].
  destruct (zip_index_inv zips2) as [Hinv2 Hkey2].
  destruct (zip_index zips2) as [zipData2|e|e] eqn:Hz2; [|exfalso..].
  - destruct Hinv2 as [_ Hsets2]. exists zipData2. split; [done|]. intros z.
    rewrite (plan_arrays_ignore_row_order plans1 plans2 Hplans Hnan).
    specialize (Hkey1 zipData1 z Hz1). specialize (Hkey2 zipData2 z eq_refl).
    unfold resolve_rate, JSObject.get.
    destruct (zipData1 !! z) as [s1|] eqn:Hs1,
             (zipData2 !! z) as [s2|] eqn:Hs2.
    + destruct (Hsets1 z s1 Hs1) as (Hnd1 & _ & Hmem1).
      destruct (Hsets2 z s2 Hs2) as (Hnd2 & _ & Hmem2).
      assert (s1 ≡ₚ s2) as Hperm.
      { apply NoDup_Permutation; [done..|]. intros a.
        rewrite Hmem1, Hmem2. by setoid_rewrite Hzips. }
      pose proof (Permutation_length Hperm) as Hlen.
      destruct s1 as [|a1 [|b1 t1]], s2 as [|a2 [|b2 t2]];
        simpl in Hlen; try discriminate Hlen; try done.
      by apply Permutation_singleton_l in Hperm as [= ->].
    + exfalso. destruct (proj1 Hkey1) as (r & Hr & ?); [done|].
      assert (is_Some (None : option (list number))) as [? ?]; [|done].
      apply Hkey2. exists r. by rewrite <- Hzips.
    + exfalso. destruct (proj1 Hkey2) as (r & Hr & ?); [done|].
      assert (is_Some (None : option (list number))) as [? ?]; [|done].
      apply Hkey1. exists r. by rewrite Hzips.
    + done.
  - destruct Hinv2 as [_ Hbad]. apply Hbad. by rewrite <- Hzips.
  - done.
Qed.

End row_order.

Lemma X21_resolution_ignores_row_order_example :
  ∃ zipData2,
    zip_index (reverse example_zips) = Normal zipData2
    ∧ ∀ z, resolve_rate (preprocessPlanRates (plan_index example_plans))
             example_zipData z
           = resolve_rate
               (preprocessPlanRates (plan_index (reverse example_plans)))
               zipData2 z.
Proof.
  apply (X21_resolution_ignores_row_order example_plans (reverse example_plans)
           example_zips (reverse example_zips) example_zipData).
  - symmetry. apply reverse_Permutation.
  - symmetry. apply reverse_Permutation.
  - intros r Hr _. apply list_elem_of_In in Hr.
    repeat (destruct Hr as [<-|Hr]; [vm_compute; discriminate|]).
    destruct Hr.
  - vm_compute. reflexivity.
Defined.

Section file_rows.

Context (planData : gmap number (list number)).
Context (zipData : gmap string (list number)).




End file_rows.



Section parseCSV.



End parseCSV.

